(** * DevilAgent: the chat turn, the retrieval loop and the skill classifier

    A shallow embedding of [src/main.py].

    Python [str] values are modelled as [string]; a character stands for a
    code point below 256, and [lower] / [strip] follow Python on that range.

    The external services (the search engine, the language model, the
    clock) are the events of a small free monad; a program of that monad
    also yields fragments, as the async generator [chat] does.  A program
    is run against a handler, an arbitrary stateful world that answers
    every call, and the run gives the trace of fragments and calls, the
    result and the final world.  An exception of class [Exception] raised
    by a service is the answer [Raised reason], which is what the
    [except Exception] clauses of the source catch.  A stream delivers
    finitely many chunks.  The searches of one [asyncio.gather] are called
    in the order of the queries; each has its own [try], so the result of
    one does not depend on the others.  Logging is left out. *)

From Stdlib Require Import String Ascii List Bool Arith Lia DecimalString.
Import ListNotations.
Open Scope list_scope.
Open Scope string_scope.

(** ** Python strings *)

Module PyStr.

(** The characters written with an escape in the Python source. *)
Definition LF : string := String (ascii_of_nat 10) "".
Definition DQ : string := String (ascii_of_nat 34) "".

(** [bool(s)]: a string is truthy when it is not empty. *)
Definition truthy (s : string) : bool :=
  match s with
  | EmptyString => false
  | String _ _ => true
  end.

(** [str.lower] on one code point: A-Z and the cased letters of the
    Latin-1 block (U+00C0-U+00DE without the multiplication sign). *)
Definition lower_char (c : ascii) : ascii :=
  let n := nat_of_ascii c in
  if (((65 <=? n) && (n <=? 90))
      || ((192 <=? n) && (n <=? 222) && negb (n =? 215)))%nat
  then ascii_of_nat (n + 32)
  else c.

(** [s.lower()] *)
Fixpoint lower (s : string) : string :=
  match s with
  | EmptyString => EmptyString
  | String c s' => String (lower_char c) (lower s')
  end.

(** [s.startswith(p)] *)
Fixpoint startswith (s p : string) {struct p} : bool :=
  match p, s with
  | EmptyString, _ => true
  | String _ _, EmptyString => false
  | String a p', String b s' => if Ascii.eqb a b then startswith s' p' else false
  end.

(** [kw in s] *)
Fixpoint contains (s kw : string) : bool :=
  startswith s kw
  || match s with
     | EmptyString => false
     | String _ s' => contains s' kw
     end.

(** [str.isspace] on one code point. *)
Definition is_space (c : ascii) : bool :=
  let n := nat_of_ascii c in
  (((9 <=? n) && (n <=? 13)) || ((28 <=? n) && (n <=? 32))
   || (n =? 133) || (n =? 160))%nat.

Fixpoint lstrip (s : string) : string :=
  match s with
  | EmptyString => EmptyString
  | String c s' => if is_space c then lstrip s' else s
  end.

Fixpoint rstrip (s : string) : string :=
  match s with
  | EmptyString => EmptyString
  | String c s' =>
      let r := rstrip s' in
      if is_space c && negb (truthy r) then EmptyString else String c r
  end.

(** [s.strip()] *)
Definition strip (s : string) : string := rstrip (lstrip s).

(** [s.split(sep)] for a non-empty [sep]: the pieces between the
    occurrences of [sep], found left to right without overlap.  [skip]
    counts the characters of a matched separator still to be passed and
    [cur] is the piece being read. *)
Fixpoint split_go (sep : string) (skip : nat) (cur s : string) : list string :=
  match s with
  | EmptyString => [cur]
  | String c s' =>
      match skip with
      | S k => split_go sep k cur s'
      | O =>
          if startswith s sep
          then cur :: split_go sep (String.length sep - 1) "" s'
          else split_go sep 0 (cur ++ String c "") s'
      end
  end.

Definition split (s sep : string) : list string := split_go sep 0 "" s.

(** [sep.join(l)] *)
Fixpoint join (sep : string) (l : list string) : string :=
  match l with
  | [] => ""
  | [x] => x
  | x :: l' => x ++ sep ++ join sep l'
  end.

(** [s[:n]] *)
Definition slice_to (n : nat) (s : string) : string := substring 0 n s.

(** [str(n)] for a natural number. *)
Definition str_of_nat (n : nat) : string := NilEmpty.string_of_uint (Nat.to_uint n).

End PyStr.
Import PyStr.

(** ** The skill classifier *)

(** The two keyword lists written inline in [_detect_skill]. *)
Definition code_keywords : list string :=
  ["def "; "class "; "import "; "function"; "```"].

Definition document_keywords : list string :=
  ["paper"; "report"; "proposal"; "design"; "analysis"; "hypothesis";
   "conclusion"; "thesis"; "research"; "study"].

(** Python's [any] over a list. *)
Definition any {A : Type} (f : A -> bool) (l : list A) : bool := existsb f l.

Definition _detect_skill (text : string) : string :=
  if any (fun kw => contains (lower text) kw) code_keywords then "code-checker"
  else if any (fun kw => contains (lower text) kw) document_keywords then "logic-auditor"
  else "general-reviewer".


(** ** Data model *)

(** A [dict] from [str] to [str] keeps its keys in insertion order: an
    association list without repeated keys. *)
Definition dict : Type := list (string * string).

(** [d[k] = v]: an existing key keeps its place and gets the new value, a
    new key goes to the end. *)
Fixpoint dict_set (k v : string) (d : dict) : dict :=
  match d with
  | [] => [(k, v)]
  | (k', v') :: d' =>
      if String.eqb k' k then (k', v) :: d' else (k', v') :: dict_set k v d'
  end.

(** [d.update(other)] *)
Definition dict_update (d other : dict) : dict :=
  fold_left (fun acc kv => dict_set (fst kv) (snd kv) acc) other d.

(** [dict(pairs)] *)
Definition dict_of (pairs : list (string * string)) : dict := dict_update [] pairs.

(** [d.get(k)] *)
Fixpoint dict_get (k : string) (d : dict) : option string :=
  match d with
  | [] => None
  | (k', v) :: d' => if String.eqb k' k then Some v else dict_get k d'
  end.

Definition keys (d : dict) : list string := map fst d.

(** One result of the search engine, a Python dict read with
    [r.get(key, '')]: [None] is an absent key. *)
Record SearchHit : Type := {
  title : option string;
  body : option string;
  href : option string
}.

Definition get_or_empty (field : option string) : string :=
  match field with
  | Some s => s
  | None => ""
  end.

Record SearchValidation : Type := {
  is_satisfied : bool;
  reason : string;
  new_queries : list string
}.

Record SearchQueries : Type := { queries : list string }.

(** A value read from YAML frontmatter. *)
#[local] Unset Elimination Schemes.
Inductive yaml : Type :=
| YNull
| YBool (b : bool)
| YInt (n : nat)
| YStr (s : string)
| YSeq (l : list yaml)
| YMap (m : list (string * yaml)).
#[local] Set Elimination Schemes.

Record SkillMetadata : Type := {
  name : string;
  description : string;
  path : string;
  content : string;
  license : option string;
  compatibility : option string;
  metadata : list (string * yaml);
  allowed_tools : list string
}.

Inductive Message : Type :=
| SystemMessage (text : string)
| HumanMessage (text : string)
| AIMessage (text : string).

(** The mutable fields of a [DevilAgent]; [self.llm] is the handle of the
    language model, whose calls are events below. *)
Record DevilAgent : Type := {
  skills_metadata : list SkillMetadata;
  devil_mode : bool;
  use_web_search : bool;
  active_skill : option SkillMetadata;
  history : list Message
}.

Definition with_history (h : list Message) (self : DevilAgent) : DevilAgent :=
  {| skills_metadata := skills_metadata self;
     devil_mode := devil_mode self;
     use_web_search := use_web_search self;
     active_skill := active_skill self;
     history := h |}.

Definition with_active_skill (s : option SkillMetadata) (self : DevilAgent) : DevilAgent :=
  {| skills_metadata := skills_metadata self;
     devil_mode := devil_mode self;
     use_web_search := use_web_search self;
     active_skill := s;
     history := history self |}.

(** ** External services and the program monad *)

(** What a call to an external service gives back. *)
Inductive outcome (A : Type) : Type :=
| Returned (a : A)
| Raised (e : string).
Arguments Returned {A} a.
Arguments Raised {A} e.

(** The calls that leave the process, indexed by the type of their answer.
    [LLM_astream] answers with the contents of the chunks the stream
    delivers and, when the stream breaks, the exception that ends it. *)
Inductive Ev : Type -> Type :=
| Now : Ev string
| DDGS_text (query : string) : Ev (outcome (list SearchHit))
| Extract_ainvoke (today user_input : string) : Ev (outcome (option SearchQueries))
| Validate_ainvoke (today user_input : string) (results : dict)
    : Ev (outcome (option SearchValidation))
| LLM_astream (messages : list Message) : Ev (list string * option string).

(** An async generator: it returns, yields a fragment to its consumer, or
    awaits an external call. *)
Inductive prog (R : Type) : Type :=
| Ret (r : R)
| Yield (fragment : string) (k : prog R)
| Call {X : Type} (e : Ev X) (k : X -> prog R).
Arguments Ret {R} r.
Arguments Yield {R} fragment k.
Arguments Call {R X} e k.

Fixpoint bind {A B : Type} (p : prog A) (f : A -> prog B) : prog B :=
  match p with
  | Ret a => f a
  | Yield s k => Yield s (bind k f)
  | Call e k => Call e (fun x => bind (k x) f)
  end.

Definition call {X : Type} (e : Ev X) : prog X := Call e Ret.
Definition yield (fragment : string) : prog unit := Yield fragment (Ret tt).

Declare Scope prog_scope.
Delimit Scope prog_scope with prog.
Notation "x <- p ;; q" := (bind p (fun x => q))
  (at level 61, p at next level, right associativity) : prog_scope.
Notation "p ;; q" := (bind p (fun _ => q))
  (at level 61, right associativity) : prog_scope.
Open Scope prog_scope.

(** What an observer of a turn sees: the fragments yielded and the
    external calls with their answers, in order. *)
Inductive obs : Type :=
| Out (fragment : string)
| Clock (today : string)
| Searched (query : string) (answer : outcome (list SearchHit))
| Extracted (today user_input : string) (answer : outcome (option SearchQueries))
| Validated (today user_input : string) (results : dict)
    (answer : outcome (option SearchValidation))
| Streamed (messages : list Message) (answer : list string * option string).

Definition observe {X : Type} (e : Ev X) : X -> obs :=
  match e in Ev X return X -> obs with
  | Now => Clock
  | DDGS_text q => Searched q
  | Extract_ainvoke t u => Extracted t u
  | Validate_ainvoke t u r => Validated t u r
  | LLM_astream m => Streamed m
  end.

(** The outside world: any state, and an answer to every call. *)
Definition handler (W : Type) : Type := forall X : Type, Ev X -> W -> X * W.

Fixpoint run {W R : Type} (h : handler W) (p : prog R) (w : W) : list obs * R * W :=
  match p with
  | Ret r => ([], r, w)
  | Yield s k =>
      let '(t, r, w') := run h k w in (Out s :: t, r, w')
  | Call e k =>
      let '(x, w1) := h _ e w in
      let '(t, r, w') := run h (k x) w1 in
      (observe e x :: t, r, w')
  end.

Definition trace_of {W R : Type} (h : handler W) (p : prog R) (w : W) : list obs :=
  fst (fst (run h p w)).

Definition result_of {W R : Type} (h : handler W) (p : prog R) (w : W) : R :=
  snd (fst (run h p w)).

Definition world_after {W R : Type} (h : handler W) (p : prog R) (w : W) : W :=
  snd (run h p w).

(** The fragments a consumer of the generator receives. *)
Fixpoint outputs (t : list obs) : list string :=
  match t with
  | [] => []
  | Out s :: t' => s :: outputs t'
  | _ :: t' => outputs t'
  end.

Definition is_search_call (o : obs) : bool :=
  match o with
  | Searched _ _ => true
  | _ => false
  end.

Definition is_validate_call (o : obs) : bool :=
  match o with
  | Validated _ _ _ _ => true
  | _ => false
  end.

Definition is_extract_call (o : obs) : bool :=
  match o with
  | Extracted _ _ _ => true
  | _ => false
  end.

Definition is_stream_call (o : obs) : bool :=
  match o with
  | Streamed _ _ => true
  | _ => false
  end.

Definition count (f : obs -> bool) (t : list obs) : nat := length (filter f t).

(** A validation answer on which the loop breaks: the call failed, the
    parsed result is [None], or the verdict is satisfied. *)
Definition stops (answer : outcome (option SearchValidation)) : bool :=
  match answer with
  | Raised _ => true
  | Returned None => true
  | Returned (Some v) => is_satisfied v
  end.

(** ** Search *)

Definition format_hit (r : SearchHit) : string :=
  "- " ++ get_or_empty (title r) ++ ": " ++ slice_to 200 (get_or_empty (body r))
  ++ "..." ++ LF ++ "  Source: " ++ get_or_empty (href r).

(** What [_search_web] makes of the answer of the search engine. *)
Definition render_search (query : string) (answer : outcome (list SearchHit)) : string :=
  match answer with
  | Returned [] => "[No results: " ++ query ++ "]"
  | Returned results => join LF (map format_hit results)
  | Raised e => "[Search failed: " ++ e ++ "]"
  end.

Definition _search_web (query : string) : prog string :=
  answer <- call (DDGS_text query) ;;
  Ret (render_search query answer).

(** [asyncio.gather]: every program runs to its end and the results come
    back in the order of the arguments. *)
Fixpoint gather {R : Type} (ps : list (prog R)) : prog (list R) :=
  match ps with
  | [] => Ret []
  | p :: ps' => r <- p ;; rs <- gather ps' ;; Ret (r :: rs)
  end.

Definition multi_search (queries : list string) : prog dict :=
  results <- gather (map _search_web queries) ;;
  Ret (dict_of (combine queries results)).

(** ** Prompts *)

(** The literals of the source hold a few characters beyond the range of
    the model's characters (the marks before "Unverified", before the
    three severity headings, in the skills list and in the offline
    notice); they are written here as the bytes of their UTF-8 form, so
    the length of these texts is not that of the Python strings.  The
    statements below use these texts by name or by what they contain. *)

Definition NORMAL_PROMPT : string :=
  "<system>
You are a helpful assistant. Follow instructions precisely. Do NOT invent facts.
</system>

<instructions>
1) Include source links when possible
2) Mark unverified info with " ++ DQ ++ "‚ö†Ô∏è Unverified" ++ DQ ++ "
3) Use search results if provided, verify dates match current date
</instructions>".

(** [DEVIL_PROMPT.format(skills_list=..., skill_content=...)] *)
Definition DEVIL_PROMPT_format (skills_list skill_content : string) : string :=
  "<system>
You are a professional red-team reviewer (Devil's Advocate mode). Find ALL issues and vulnerabilities strictly.
</system>

<instructions>
Task steps:
1) Analyze user content thoroughly
2) Identify logic flaws, technical issues, potential risks
3) Categorize findings by severity
4) Ask " ++ DQ ++ "Want deeper analysis on any specific issue?" ++ DQ ++ "
</instructions>

<context>
Available skills (L1 metadata):
"
  ++ skills_list ++
  "

Active skill instructions (L2):
"
  ++ skill_content ++
  "
</context>

<output_format>
üî¥ **MUST FIX** - Critical/blocking issues
üü° **SHOULD FIX** - Medium issues  
üìù **SUGGESTIONS** - Optimization tips

End with: " ++ DQ ++ "Want deeper analysis on any issue? You can specify attack direction." ++ DQ ++ "
</output_format>".

(** The fragment closing a turn answered without web search. *)
Definition OFFLINE_NOTICE : string :=
  LF ++ LF ++ "---" ++ LF ++ "‚ö†Ô∏è *Response generated without web search. Information may not be current.*".

Definition ARROW : string := "‚Üí".

(** ** The agent *)

Definition _format_skills_list (self : DevilAgent) : string :=
  match skills_metadata self with
  | [] => "No skills available"
  | _ =>
      join LF
        (map (fun s => "- **" ++ name s ++ "**: " ++ description s ++ LF
                       ++ "  " ++ ARROW ++ " Read " ++ path s ++ " for full instructions")
             (skills_metadata self))
  end.

Definition _load_skill_by_name (self : DevilAgent) (n : string) : option SkillMetadata :=
  find (fun s => String.eqb (name s) n) (skills_metadata self).

Definition set_mode (devil : bool) (self : DevilAgent) : DevilAgent :=
  {| skills_metadata := skills_metadata self;
     devil_mode := devil;
     use_web_search := use_web_search self;
     active_skill := None;
     history := history self |}.

Definition set_search (enabled : bool) (self : DevilAgent) : DevilAgent :=
  {| skills_metadata := skills_metadata self;
     devil_mode := devil_mode self;
     use_web_search := enabled;
     active_skill := active_skill self;
     history := history self |}.

Definition clear (self : DevilAgent) : DevilAgent :=
  with_active_skill None (with_history [] self).

(** [_build_prompt] returns the prompt and the agent, whose active skill
    it may have set. *)
Definition _build_prompt (self : DevilAgent) (user_input : string) : string * DevilAgent :=
  if negb (devil_mode self) then (NORMAL_PROMPT, self)
  else
    let self :=
      match active_skill self with
      | None =>
          if truthy user_input
          then with_active_skill (_load_skill_by_name self (_detect_skill user_input)) self
          else self
      | Some _ => self
      end in
    let skill_content :=
      match active_skill self with
      | Some s => content s
      | None => "No skill loaded"
      end in
    (DEVIL_PROMPT_format (_format_skills_list self) skill_content, self).

Definition _extract_search_queries (user_input : string) : prog (list string) :=
  today <- call Now ;;
  raw <- call (Extract_ainvoke today user_input) ;;
  match raw with
  | Returned (Some result) => Ret (queries result)
  | Returned None => Ret []
  | Raised _ => Ret []
  end.

Definition _validate_search (user_input : string) (results : dict)
  : prog (option SearchValidation) :=
  today <- call Now ;;
  raw <- call (Validate_ainvoke today user_input results) ;;
  match raw with
  | Returned result => Ret result
  | Raised _ => Ret None
  end.

(** ** The chat turn *)

Definition max_iterations : nat := 3.

(** [range(n)] *)
Definition range (n : nat) : list nat := seq 0 n.

(** The [for i in range(max_iterations)] loop of [chat], over the indices
    still to run; it gives back [all_results] and [iteration_count]. *)
Fixpoint react_loop (indices : list nat) (user_input : string) (queries : list string)
    (all_results : dict) (iteration_count : nat) : prog (dict * nat) :=
  match indices with
  | [] => Ret (all_results, iteration_count)
  | i :: indices' =>
      match queries with
      | [] => Ret (all_results, iteration_count)
      | _ =>
          yield ("[STAGE]Searching: " ++ join ", " queries ++ LF) ;;
          results <- multi_search queries ;;
          let all_results := dict_update all_results results in
          let iteration_count := i + 1 in
          yield ("[STAGE]Found " ++ str_of_nat (length results) ++ " results, validating..." ++ LF) ;;
          validation <- _validate_search user_input all_results ;;
          match validation with
          | None => Ret (all_results, iteration_count)
          | Some v =>
              if is_satisfied v then Ret (all_results, iteration_count)
              else
                let queries := new_queries v in
                match queries with
                | [] => Ret tt
                | _ => yield ("[STAGE]Refining search..." ++ LF)
                end ;;
                react_loop indices' user_input queries all_results iteration_count
          end
      end
  end.

(** The citation scan of one line, appending to [search_sources]. *)
Definition scan_line (search_sources : list string) (line : string) : list string :=
  if contains line "Source: " then
    let url := strip (last (split line "Source: ") "") in
    if truthy url && startswith url "http"
    then (search_sources ++ [url])%list
    else search_sources
  else search_sources.

(** [for q, r in all_results.items(): for line in r.split("\n"): ...] *)
Definition collect_sources (all_results : dict) : list string :=
  fold_left (fun acc qr => fold_left scan_line (split (snd qr) LF) acc) all_results [].

Definition build_search_context (today : string) (all_results : dict) : string :=
  LF ++ LF ++ "<search_results date=" ++ DQ ++ today ++ DQ ++ ">" ++ LF
  ++ join LF (map (fun qr => "[" ++ fst qr ++ "]" ++ LF ++ snd qr) all_results)
  ++ LF ++ "</search_results>" ++ LF ++ LF ++ "Today is " ++ today
  ++ ". Answer based on search results above. Use markdown formatting. Cite sources with [N](url) format when referencing specific facts.".

(** The retrieval loop as [chat] runs it when web search is on, up to the
    accumulated results. *)
Definition chat_retrieve (user_input : string) : prog (dict * nat) :=
  yield ("[STAGE]Extracting search queries..." ++ LF) ;;
  queries <- _extract_search_queries user_input ;;
  react_loop (range max_iterations) user_input queries [] 0.

(** The first half of [chat]: [search_context] and [search_sources]. *)
Definition chat_search (self : DevilAgent) (user_input : string)
  : prog (string * list string) :=
  if use_web_search self then
    res <- chat_retrieve user_input ;;
    match fst res with
    | [] => Ret ("", [])
    | all_results =>
        today <- call Now ;;
        let search_sources := collect_sources all_results in
        let search_context := build_search_context today all_results in
        yield ("[STAGE]Generating response..." ++ LF) ;;
        Ret (search_context, search_sources)
    end
  else
    yield ("[STAGE]Generating response (offline)..." ++ LF) ;;
    Ret ("", []).

Fixpoint yield_each (fragments : list string) : prog unit :=
  match fragments with
  | [] => Ret tt
  | s :: rest => yield s ;; yield_each rest
  end.

(** [enumerate(l, 1)] *)
Definition enumerate1 {A : Type} (l : list A) : list (nat * A) :=
  combine (seq 1 (length l)) l.

Definition REFERENCES_HEADER : string :=
  LF ++ LF ++ "---" ++ LF ++ "**References:**" ++ LF.

Definition reference_line (entry : nat * string) : string :=
  "[" ++ str_of_nat (fst entry) ++ "]: " ++ snd entry ++ LF.

(** The fragments yielded after the stream has ended without exception. *)
Definition footer (self : DevilAgent) (search_sources : list string) : list string :=
  if negb (use_web_search self) then [OFFLINE_NOTICE]
  else
    match search_sources with
    | [] => []
    | _ => REFERENCES_HEADER :: map reference_line (enumerate1 (firstn 5 search_sources))
    end.

Definition error_fragment (e : string) : string := LF ++ "[Error: " ++ e ++ "]".

(** The second half of [chat], from [self.history.append(HumanMessage(...))]
    on. *)
Definition chat_stream (self : DevilAgent) (user_input search_context : string)
    (search_sources : list string) : prog DevilAgent :=
  let self := with_history (history self ++ [HumanMessage user_input])%list self in
  let '(prompt, self) := _build_prompt self user_input in
  let messages := SystemMessage (prompt ++ search_context) :: history self in
  answer <- call (LLM_astream messages) ;;
  let '(chunks, failure) := answer in
  let contents := filter truthy chunks in
  let full := String.concat "" contents in
  yield_each contents ;;
  match failure with
  | Some e =>
      yield (error_fragment e) ;;
      Ret self
  | None =>
      yield_each (footer self search_sources) ;;
      Ret (with_history (history self ++ [AIMessage full])%list self)
  end.

Definition chat (self : DevilAgent) (user_input : string) : prog DevilAgent :=
  let self := with_history [] self in
  found <- chat_search self user_input ;;
  chat_stream self user_input (fst found) (snd found).

(** ** Reading a trace *)

(** The rendered result of the most recent search of [q] in a trace. *)
Fixpoint latest (q : string) (t : list obs) : option string :=
  match t with
  | [] => None
  | o :: t' =>
      match latest q t' with
      | Some v => Some v
      | None =>
          match o with
          | Searched q' a => if String.eqb q' q then Some (render_search q' a) else None
          | _ => None
          end
      end
  end.

(** The [Source: ] line of one search hit, as [format_hit] writes it. *)
Definition MARKER : string := "Source: ".

(** ** Scripted worlds *)

(** A world that answers from a script; its state counts the searches and
    the validations served so far. *)
Record script : Type := {
  today_is : string;
  extraction : outcome (option SearchQueries);
  search_engine : nat -> string -> outcome (list SearchHit);
  validator : nat -> outcome (option SearchValidation);
  stream : list string * option string
}.

Definition play (sc : script) : handler (nat * nat) :=
  fun X e =>
    match e in Ev X return nat * nat -> X * (nat * nat) with
    | Now => fun w => (today_is sc, w)
    | DDGS_text q => fun w => (search_engine sc (fst w) q, (S (fst w), snd w))
    | Extract_ainvoke _ _ => fun w => (extraction sc, w)
    | Validate_ainvoke _ _ _ => fun w => (validator sc (snd w), (fst w, S (snd w)))
    | LLM_astream _ => fun w => (stream sc, w)
    end.

Definition unsatisfied (qs : list string) : outcome (option SearchValidation) :=
  Returned (Some {| is_satisfied := false; reason := "results are old"; new_queries := qs |}).

Definition satisfied : outcome (option SearchValidation) :=
  Returned (Some {| is_satisfied := true; reason := "fresh"; new_queries := [] |}).

Definition hit (t b u : string) : SearchHit :=
  {| title := Some t; body := Some b; href := Some u |}.

(** The validator is never satisfied and asks for the same query again;
    the first search fails and the later ones find nothing. *)
Definition world_requery : script :=
  {| today_is := "2024-06-01";
     extraction := Returned (Some {| queries := ["q"] |});
     search_engine := fun n _ =>
       match n with
       | O => Raised "timeout"
       | _ => Returned []
       end;
     validator := fun _ => unsatisfied ["q"];
     stream := (["Hel"; ""; "lo"], None) |}.

(** Three queries, the second of which fails; validation is satisfied at
    once and the stream has two chunks. *)
Definition world_partial : script :=
  {| today_is := "2024-06-01";
     extraction := Returned (Some {| queries := ["a"; "b"; "c"] |});
     search_engine := fun n q =>
       match n with
       | 1 => Raised "rate limit"
       | 2 => Returned []
       | _ => Returned [hit "T" "B" "https://example.org/a"]
       end;
     validator := fun _ => satisfied;
     stream := (["Hel"; ""; "lo"], None) |}.

(** As [world_partial], but the stream breaks after its first chunk. *)
Definition world_broken : script :=
  {| today_is := "2024-06-01";
     extraction := Returned (Some {| queries := ["a"] |});
     search_engine := fun _ _ => Returned [hit "T" "B" "https://example.org/a"];
     validator := fun _ => satisfied;
     stream := (["Hel"], Some "connection reset") |}.

Definition agent0 : DevilAgent :=
  {| skills_metadata := [];
     devil_mode := true;
     use_web_search := true;
     active_skill := None;
     history := [AIMessage "old"] |}.
(** The value of the last pair with key [q] in a list of pairs. *)
Fixpoint assoc_last (q : string) (l : list (string * string)) : option string :=
  match l with
  | [] => None
  | (k, v) :: l' =>
      match assoc_last q l' with
      | Some x => Some x
      | None => if String.eqb k q then Some v else None
      end
  end.

(** The answers a world gives to the searches of [queries], in order. *)
Fixpoint search_answers {W : Type} (h : handler W) (queries : list string) (w : W)
  : list (string * outcome (list SearchHit)) * W :=
  match queries with
  | [] => ([], w)
  | q :: queries' =>
      let '(a, w1) := h _ (DDGS_text q) w in
      let '(l, w2) := search_answers h queries' w1 in
      ((q, a) :: l, w2)
  end.

Definition searched (qa : string * outcome (list SearchHit)) : obs :=
  Searched (fst qa) (snd qa).

Definition rendered (qa : string * outcome (list SearchHit)) : string * string :=
  (fst qa, render_search (fst qa) (snd qa)).

(** The events of one round of the retrieval loop, from the dispatch of
    [queries] to the answer [a] of the validation of the merged map [d]. *)
Definition round_head (queries : list string)
    (answers : list (string * outcome (list SearchHit)))
    (today user_input : string) (d : dict)
    (a : outcome (option SearchValidation)) : list obs :=
  (Out ("[STAGE]Searching: " ++ join ", " queries ++ LF)
   :: map searched answers
   ++ [Out ("[STAGE]Found " ++ str_of_nat (length (dict_of (map rendered answers)))
            ++ " results, validating..." ++ LF);
       Clock today;
       Validated today user_input d a])%list.

Definition refining (queries : list string) : list obs :=
  match queries with
  | [] => []
  | _ => [Out ("[STAGE]Refining search..." ++ LF)]
  end.

(** The progress fragment that opens a search dispatch. *)
Definition is_dispatch (o : obs) : bool :=
  match o with
  | Out s => startswith s "[STAGE]Searching: "
  | _ => false
  end.

(** The calls of the retrieval loop. *)
Definition is_retrieval_call (o : obs) : bool :=
  is_extract_call o || is_search_call o || is_validate_call o.

(** What the loop leaves behind after the validation of a round. *)
Definition round_tail {W : Type} (h : handler W) (indices : list nat) (u : string)
    (d : dict) (i : nat) (a : outcome (option SearchValidation)) (w : W) : list obs :=
  if stops a then []
  else
    let nq := match a with
              | Returned (Some v) => new_queries v
              | _ => []
              end in
    (refining nq ++ trace_of h (react_loop indices u nq d (i + 1)) w)%list.


(** The accumulated maps handed to the validations of a trace, in order. *)
Fixpoint snapshots (t : list obs) : list dict :=
  match t with
  | [] => []
  | Validated _ _ r _ :: t' => r :: snapshots t'
  | _ :: t' => snapshots t'
  end.

(** No search and no validation. *)
Definition quiet (t : list obs) : bool :=
  forallb (fun o => negb (is_search_call o || is_validate_call o)) t.

(** The agent after [_build_prompt] and the messages handed to the
    stream, for the agent and context [chat_stream] starts from. *)
Definition stream_agent (self : DevilAgent) (user_input : string) : DevilAgent :=
  snd (_build_prompt
         (with_history (history self ++ [HumanMessage user_input])%list self) user_input).

Definition stream_messages (self : DevilAgent) (user_input search_context : string)
  : list Message :=
  SystemMessage
    (fst (_build_prompt
            (with_history (history self ++ [HumanMessage user_input])%list self)
            user_input)
     ++ search_context)
  :: history (stream_agent self user_input).

(** The fragments that follow the chunks of the stream. *)
Definition closing (self : DevilAgent) (search_sources : list string)
    (failure : option string) : list string :=
  match failure with
  | Some e => [error_fragment e]
  | None => footer self search_sources
  end.

(** Two scripted turns and the maps their validations see. *)
Definition turn_partial : list obs :=
  trace_of (play world_partial) (chat agent0 "x") (0, 0).

Definition turn_requery : list obs :=
  trace_of (play world_requery) (chat agent0 "x") (0, 0).

Definition results_partial : dict :=
  [("a", "- T: B..." ++ LF ++ "  Source: https://example.org/a");
   ("b", "[Search failed: rate limit]");
   ("c", "[No results: c]")].

(** The extraction of queries fails; the stream has two chunks. *)
Definition world_no_queries : script :=
  {| today_is := "2024-06-01";
     extraction := Raised "model unavailable";
     search_engine := fun _ _ => Returned [];
     validator := fun _ => satisfied;
     stream := (["Hel"; "lo"], None) |}.

(** A fragment that a client routes to its progress panel. *)
Definition is_stage (o : obs) : bool :=
  match o with
  | Out s => startswith s "[STAGE]"
  | _ => true
  end.

(** The first of the two lines that [format_hit] writes for a hit. *)
Definition head_line (r : SearchHit) : string :=
  "- " ++ get_or_empty (title r) ++ ": " ++ slice_to 200 (get_or_empty (body r)) ++ "...".

(** A hit whose two lines are read back by the citation scan as its URL:
    the first line holds no line break and no marker, and the URL holds
    neither, has no blank at either end and starts with http. *)
Definition plain_hit (r : SearchHit) : Prop :=
  contains (head_line r) LF = false
  /\ contains (head_line r) MARKER = false
  /\ contains (get_or_empty (href r)) LF = false
  /\ contains (get_or_empty (href r)) MARKER = false
  /\ strip (get_or_empty (href r)) = get_or_empty (href r)
  /\ startswith (get_or_empty (href r)) "http" = true.

(** ** Skill names *)

(** Regular expressions, as far as the pattern of [_validate_skill_name]
    needs them, matched by derivatives. *)
Inductive regex : Type :=
| Never
| Empty
| Class (f : ascii -> bool)
| Seq (r s : regex)
| Or (r s : regex)
| Many (r : regex).

(** [r+] *)
Definition Some1 (r : regex) : regex := Seq r (Many r).

Fixpoint nullable (r : regex) : bool :=
  match r with
  | Never => false
  | Empty => true
  | Class _ => false
  | Seq r s => nullable r && nullable s
  | Or r s => nullable r || nullable s
  | Many _ => true
  end.

Fixpoint deriv (c : ascii) (r : regex) : regex :=
  match r with
  | Never => Never
  | Empty => Never
  | Class f => if f c then Empty else Never
  | Seq r s =>
      if nullable r then Or (Seq (deriv c r) s) (deriv c s) else Seq (deriv c r) s
  | Or r s => Or (deriv c r) (deriv c s)
  | Many r => Seq (deriv c r) (Many r)
  end.

(** The whole of [s] matches [r]. *)
Fixpoint fullmatch (r : regex) (s : string) : bool :=
  match s with
  | EmptyString => nullable r
  | String c s' => fullmatch (deriv c r) s'
  end.

(** [s] without its last character when that is a line break. *)
Fixpoint chop_LF (s : string) : option string :=
  match s with
  | EmptyString => None
  | String c s' =>
      match s' with
      | EmptyString => if Ascii.eqb c (ascii_of_nat 10) then Some "" else None
      | _ =>
          match chop_LF s' with
          | Some t => Some (String c t)
          | None => None
          end
      end
  end.

(** [re.match("^r$", s) is not None]: without the MULTILINE flag, [$]
    matches at the end of the string and also before a line break that
    ends the string. *)
Definition re_match_anchored (r : regex) (s : string) : bool :=
  fullmatch r s
  || match chop_LF s with
     | Some t => fullmatch r t
     | None => false
     end.

(** [[a-z0-9]] *)
Definition lower_alnum (c : ascii) : bool :=
  let n := nat_of_ascii c in
  (((97 <=? n) && (n <=? 122)) || ((48 <=? n) && (n <=? 57)))%nat.

Definition is_hyphen (c : ascii) : bool := Ascii.eqb c "-".

(** [[a-z0-9]+(-[a-z0-9]+)*] *)
Definition SKILL_NAME_PATTERN : regex :=
  Seq (Some1 (Class lower_alnum)) (Many (Seq (Class is_hyphen) (Some1 (Class lower_alnum)))).

Definition _validate_skill_name (name directory_name : string) : bool * string :=
  if negb (truthy name) then (false, "Skill name cannot be empty")
  else if (64 <? String.length name)%nat
  then (false, "Skill name too long: " ++ str_of_nat (String.length name) ++ " > 64")
  else if negb (re_match_anchored SKILL_NAME_PATTERN name)
  then (false, "Invalid skill name format: " ++ name)
  else if negb (String.eqb name directory_name)
  then (false, "Skill name '" ++ name ++ "' doesn't match directory '"
               ++ directory_name ++ "'")
  else (true, "").

(** The strings of a regular expression. *)
Inductive in_regex : regex -> string -> Prop :=
| in_Empty : in_regex Empty ""
| in_Class (f : ascii -> bool) (c : ascii) :
    f c = true -> in_regex (Class f) (String c "")
| in_Seq (r s : regex) (a b : string) :
    in_regex r a -> in_regex s b -> in_regex (Seq r s) (a ++ b)
| in_Or_l (r s : regex) (a : string) : in_regex r a -> in_regex (Or r s) a
| in_Or_r (r s : regex) (a : string) : in_regex s a -> in_regex (Or r s) a
| in_Many_nil (r : regex) : in_regex (Many r) ""
| in_Many_cons (r : regex) (a b : string) :
    in_regex r a -> in_regex (Many r) b -> in_regex (Many r) (a ++ b).

(** Every character of [s] satisfies [f]. *)
Fixpoint all_chars (f : ascii -> bool) (s : string) : bool :=
  match s with
  | EmptyString => true
  | String c s' => f c && all_chars f s'
  end.

(** A non-empty run of lowercase letters and digits. *)
Definition is_run (s : string) : Prop := s <> "" /\ all_chars lower_alnum s = true.

(** Runs joined by single hyphens: what the pattern describes. *)
Definition hyphenated (s : string) : Prop :=
  exists (first : string) (others : list string),
    is_run first /\ Forall is_run others /\ s = join "-" (first :: others).

(** What follows the first run of a hyphenated name. *)
Fixpoint hyphen_tail (others : list string) : string :=
  match others with
  | [] => ""
  | o :: os => "-" ++ o ++ hyphen_tail os
  end.

(** The characters a valid skill name is made of. *)
Definition name_char (c : ascii) : bool :=
  lower_alnum c || is_hyphen c || Ascii.eqb c (ascii_of_nat 10).

(** ** The event stream of the server *)

(** One digit of [format(n, "x")]. *)
Definition hex_digit (n : nat) : ascii :=
  match n with
  | 0 => "0" | 1 => "1" | 2 => "2" | 3 => "3" | 4 => "4"
  | 5 => "5" | 6 => "6" | 7 => "7" | 8 => "8" | 9 => "9"
  | 10 => "a" | 11 => "b" | 12 => "c" | 13 => "d" | 14 => "e"
  | _ => "f"
  end%char.

(** What [json.dumps], which escapes everything outside the printable
    ASCII range, writes for one character of a string, for the code
    points below 256 that the model's characters stand for. *)
Definition json_escape (c : ascii) : string :=
  let n := nat_of_ascii c in
  if (n =? 92)%nat then "\\"
  else if (n =? 34)%nat then "\" ++ DQ
  else if (n =? 8)%nat then "\b"
  else if (n =? 12)%nat then "\f"
  else if (n =? 10)%nat then "\n"
  else if (n =? 13)%nat then "\r"
  else if (n =? 9)%nat then "\t"
  else if ((n <? 32) || (126 <? n))%nat
  then "\u00" ++ String (hex_digit (n / 16)) (String (hex_digit (n mod 16)) "")
  else String c "".

Fixpoint json_escape_all (s : string) : string :=
  match s with
  | EmptyString => ""
  | String c s' => json_escape c ++ json_escape_all s'
  end.

(** [json.dumps(s)] for a string. *)
Definition json_string (s : string) : string := DQ ++ json_escape_all s ++ DQ.

(** [f"data: {json.dumps({'content': chunk})}\n\n"] *)
Definition content_frame (chunk : string) : string :=
  "data: " ++ ("{" ++ DQ ++ "content" ++ DQ ++ ": " ++ json_string chunk ++ "}") ++ LF ++ LF.

(** [f"data: {json.dumps({'done': True})}\n\n"] *)
Definition done_frame : string :=
  "data: " ++ ("{" ++ DQ ++ "done" ++ DQ ++ ": true}") ++ LF ++ LF.

(** The generator [gen] of the chat endpoint: a frame for every fragment
    of the turn, then the closing frame.  Its [except] branch is not
    reached, since no [Exception] leaves [agent.chat]. *)
Fixpoint sse_gen {R : Type} (p : prog R) : prog R :=
  match p with
  | Ret r => Yield done_frame (Ret r)
  | Yield s k => Yield (content_frame s) (sse_gen k)
  | Call e k => Call e (fun x => sse_gen (k x))
  end.

Definition api_chat (agent : DevilAgent) (message : string) : prog DevilAgent :=
  sse_gen (chat agent message).

(** What the wrapping does to one observation. *)
Definition framed (o : obs) : obs :=
  match o with
  | Out s => Out (content_frame s)
  | _ => o
  end.

(** The printable ASCII characters, space to tilde. *)
Definition is_printable (c : ascii) : bool :=
  let n := nat_of_ascii c in ((32 <=? n) && (n <=? 126))%nat.

(** A reader of the escapes that [json_escape] writes, by which a text is
    recovered from what was written for it. *)
Definition hex_value (c : ascii) : nat :=
  let n := nat_of_ascii c in
  if ((48 <=? n) && (n <=? 57))%nat then n - 48 else n - 87.

Fixpoint json_unescape (s : string) : string :=
  match s with
  | EmptyString => ""
  | String c rest =>
      if Ascii.eqb c "\" then
        match rest with
        | EmptyString => ""
        | String k rest1 =>
            if Ascii.eqb k "u" then
              match rest1 with
              | String _ (String _ (String x (String y rest2))) =>
                  String (ascii_of_nat (hex_value x * 16 + hex_value y))
                         (json_unescape rest2)
              | _ => ""
              end
            else
              String (if Ascii.eqb k "b" then ascii_of_nat 8
                      else if Ascii.eqb k "f" then ascii_of_nat 12
                      else if Ascii.eqb k "n" then ascii_of_nat 10
                      else if Ascii.eqb k "r" then ascii_of_nat 13
                      else if Ascii.eqb k "t" then ascii_of_nat 9
                      else k)
                     (json_unescape rest1)
        end
      else String c (json_unescape rest)
  end.

(** ** The command line *)

Definition BANNER : string :=
  "DevilAgent | /devil toggle mode | /search toggle web | /clear reset | /quit exit"
  ++ LF ++ LF.

(** The [while True] loop of [cli_main] over the lines that [input]
    returns; what is printed is yielded, the prompt of [input] included.
    When the lines are used up the user interrupts at the prompt, which
    [input] has written by then, and the loop ends. *)
Fixpoint cli_loop (inputs : list string) (agent : DevilAgent) : prog DevilAgent :=
  match inputs with
  | [] => Yield "You: " (Ret agent)
  | line :: rest =>
      Yield "You: "
        (let inp := strip line in
         if negb (truthy inp) then cli_loop rest agent
         else if String.eqb inp "/quit" then Ret agent
         else if String.eqb inp "/devil" then
           let agent := set_mode (negb (devil_mode agent)) agent in
           Yield ("-> " ++ (if devil_mode agent then "Devil" else "Normal") ++ LF ++ LF)
             (cli_loop rest agent)
         else if String.eqb inp "/search" then
           let agent := set_search (negb (use_web_search agent)) agent in
           Yield ("-> Web search: " ++ (if use_web_search agent then "ON" else "OFF")
                  ++ LF ++ LF)
             (cli_loop rest agent)
         else if String.eqb inp "/clear" then
           Yield ("-> Cleared" ++ LF ++ LF) (cli_loop rest (clear agent))
         else
           Yield "AI: "
             (bind (chat agent inp)
                (fun agent => Yield (LF ++ LF) (cli_loop rest agent))))
  end.

Definition cli_main (agent : DevilAgent) (inputs : list string) : prog DevilAgent :=
  Yield BANNER (cli_loop inputs agent).

(** A line that the loop handles itself: blank, or one of its commands. *)
Definition is_command (inp : string) : bool :=
  negb (truthy inp) || String.eqb inp "/quit" || String.eqb inp "/devil"
  || String.eqb inp "/search" || String.eqb inp "/clear".

(** An observation that is no call. *)
Definition is_output (o : obs) : bool :=
  match o with
  | Out _ => true
  | _ => false
  end.

(** An agent in devil mode with one skill in its registry. *)
Definition skill_code : SkillMetadata :=
  {| name := "code-checker";
     description := "Reviews code";
     path := "skills/code-checker/SKILL.md";
     content := "Check the code for defects.";
     license := None;
     compatibility := None;
     metadata := [];
     allowed_tools := [] |}.

Definition agent_skilled : DevilAgent :=
  {| skills_metadata := [skill_code];
     devil_mode := true;
     use_web_search := false;
     active_skill := None;
     history := [] |}.

(** * Properties *)

Example detect_code : _detect_skill "def foo(): pass" = "code-checker".
Proof. reflexivity. Qed.

Example detect_doc : _detect_skill "my research proposal" = "logic-auditor".
Proof. reflexivity. Qed.

Example detect_general : _detect_skill "hello there" = "general-reviewer".
Proof. reflexivity. Qed.

Example detect_upper : _detect_skill "PAPER" = "logic-auditor".
Proof. reflexivity. Qed.

Example split_two : split ("a" ++ LF ++ "bc" ++ LF) LF = ["a"; "bc"; ""].
Proof. reflexivity. Qed.

Example split_marker :
  split "x Source: http://a Source: b" "Source: " = ["x "; "http://a "; "b"].
Proof. reflexivity. Qed.

Example strip_both : strip "  http://a.b/c  " = "http://a.b/c".
Proof. reflexivity. Qed.

Example str_of_nat_12 : str_of_nat 12 = "12" /\ str_of_nat 0 = "0".
Proof. split; reflexivity. Qed.

(** ** Strings: append, lowering, containment *)

Lemma sapp_assoc (a b c : string) : (a ++ b) ++ c = a ++ (b ++ c).
Proof. induction a as [|x a IH]; simpl; [reflexivity | now rewrite IH]. Qed.

Lemma sapp_nil_r (a : string) : a ++ "" = a.
Proof. induction a as [|x a IH]; simpl; [reflexivity | now rewrite IH]. Qed.

Lemma slength_app (a b : string) :
  String.length (a ++ b) = String.length a + String.length b.
Proof. induction a as [|x a IH]; simpl; [reflexivity | now rewrite IH]. Qed.

Lemma lower_app (a b : string) : lower (a ++ b) = lower a ++ lower b.
Proof. induction a as [|x a IH]; simpl; [reflexivity | now rewrite IH]. Qed.

Lemma lower_char_idem (c : ascii) : lower_char (lower_char c) = lower_char c.
Proof. destruct c as [[] [] [] [] [] [] [] []]; reflexivity. Qed.

Lemma lower_idem (s : string) : lower (lower s) = lower s.
Proof.
  induction s as [|c s IH]; simpl; [reflexivity|].
  now rewrite lower_char_idem, IH.
Qed.

Lemma startswith_app (p s : string) : startswith (p ++ s) p = true.
Proof.
  induction p as [|c p IH]; simpl; [reflexivity|].
  now rewrite Ascii.eqb_refl.
Qed.

Lemma startswith_inv (s p : string) :
  startswith s p = true -> exists r, s = p ++ r.
Proof.
  revert s; induction p as [|c p IH]; intros s H.
  - exists s; reflexivity.
  - destruct s as [|d s]; simpl in H; [discriminate|].
    destruct (Ascii.eqb_spec c d) as [->|]; [|discriminate].
    destruct (IH _ H) as [r ->]. exists r; reflexivity.
Qed.

Lemma contains_startswith (s kw : string) :
  startswith s kw = true -> contains s kw = true.
Proof. intros H; destruct s; simpl in *; rewrite H; reflexivity. Qed.

Lemma contains_app (a kw b : string) : contains (a ++ kw ++ b) kw = true.
Proof.
  induction a as [|c a IH].
  - apply contains_startswith. exact (startswith_app kw b).
  - simpl. rewrite IH. apply orb_true_r.
Qed.

Lemma contains_inv (s kw : string) :
  contains s kw = true -> exists a b, s = a ++ kw ++ b.
Proof.
  induction s as [|c s IH]; simpl; intros H.
  - rewrite orb_false_r in H. destruct (startswith_inv _ _ H) as [r ->].
    exists "", r; reflexivity.
  - apply orb_true_iff in H as [H|H].
    + destruct (startswith_inv _ _ H) as [r Hr]. exists "", r; exact Hr.
    + destruct (IH H) as (a & b & ->). exists (String c a), b; reflexivity.
Qed.

Lemma any_true {A : Type} (f : A -> bool) (l : list A) (x : A) :
  In x l -> f x = true -> any f l = true.
Proof. intros Hin Hf. apply existsb_exists. exists x; split; assumption. Qed.

Lemma any_false {A : Type} (f : A -> bool) (l : list A) :
  (forall x, In x l -> f x = false) -> any f l = false.
Proof.
  intros H. destruct (any f l) eqn:E; [|reflexivity].
  apply existsb_exists in E as (x & Hin & Hx). rewrite (H x Hin) in Hx. discriminate.
Qed.

Lemma lower_code_keywords (kw : string) : In kw code_keywords -> lower kw = kw.
Proof. simpl; intros H; repeat destruct H as [<-|H]; try reflexivity; destruct H. Qed.

Lemma lower_document_keywords (kw : string) : In kw document_keywords -> lower kw = kw.
Proof. simpl; intros H; repeat destruct H as [<-|H]; try reflexivity; destruct H. Qed.

(** A text with a cased variant of a code keyword inside is code. *)
Lemma detect_code_inside (kw u pre post : string) :
  In kw code_keywords -> lower u = kw ->
  _detect_skill (pre ++ u ++ post) = "code-checker".
Proof.
  intros Hin Hu. unfold _detect_skill.
  rewrite (any_true _ code_keywords kw Hin); [reflexivity|].
  rewrite !lower_app, Hu. apply contains_app.
Qed.

Lemma detect_document_inside (kw u pre post : string) :
  In kw document_keywords -> lower u = kw ->
  any (fun k => contains (lower (pre ++ u ++ post)) k) code_keywords = false ->
  _detect_skill (pre ++ u ++ post) = "logic-auditor".
Proof.
  intros Hin Hu Hno. unfold _detect_skill. rewrite Hno.
  rewrite (any_true _ document_keywords kw Hin); [reflexivity|].
  rewrite !lower_app, Hu. apply contains_app.
Qed.

(** ** The skill classifier *)

(** C8, as the code has it: a text containing "def foo():" is classified
    code-checker; a text containing "research proposal" is classified
    logic-auditor when its lowercased form holds no code keyword; a text
    whose lowercased form holds no code keyword and no document keyword is
    classified general-reviewer. *)
Theorem detect_skill_cases :
  (forall pre post, _detect_skill (pre ++ "def foo():" ++ post) = "code-checker")
  /\ (forall pre post,
        any (fun kw => contains (lower (pre ++ "research proposal" ++ post)) kw)
            code_keywords = false ->
        _detect_skill (pre ++ "research proposal" ++ post) = "logic-auditor")
  /\ (forall text,
        (forall kw, In kw (code_keywords ++ document_keywords)%list ->
                    contains (lower text) kw = false) ->
        _detect_skill text = "general-reviewer").
Proof.
  split; [|split].
  - intros pre post.
    change (pre ++ "def foo():" ++ post) with (pre ++ "def " ++ "foo():" ++ post).
    apply (detect_code_inside "def "); [simpl; auto | reflexivity].
  - intros pre post Hno.
    change (pre ++ "research proposal" ++ post)
      with (pre ++ "research" ++ " proposal" ++ post) in *.
    apply (detect_document_inside "research"); [simpl; tauto | reflexivity | exact Hno].
  - intros text H. unfold _detect_skill.
    rewrite !any_false; [reflexivity | |];
      intros kw Hin; apply H, in_or_app; auto.
Qed.

Lemma detect_skill_cases_witness :
  any (fun kw => contains (lower ("my " ++ "research proposal" ++ " draft")) kw)
      code_keywords = false
  /\ _detect_skill ("my " ++ "research proposal" ++ " draft") = "logic-auditor"
  /\ (forall kw, In kw (code_keywords ++ document_keywords)%list ->
                 contains (lower "Hello there") kw = false)
  /\ _detect_skill "Hello there" = "general-reviewer".
Proof.
  assert (H : forall kw, In kw (code_keywords ++ document_keywords)%list ->
                         contains (lower "Hello there") kw = false).
  { simpl; intros kw Hk; repeat destruct Hk as [<-|Hk]; try reflexivity; destruct Hk. }
  split; [reflexivity|]. split.
  - apply (proj1 (proj2 detect_skill_cases) "my " " draft"). reflexivity.
  - split; [exact H|]. apply (proj2 (proj2 detect_skill_cases) "Hello there" H).
Defined.

(** C8 as stated fails: a text with "research proposal" and a code keyword
    is classified code-checker, not logic-auditor. *)
Lemma detect_skill_research_proposal_counterexample :
  contains "def foo(): pass  # from my research proposal" "research proposal" = true
  /\ _detect_skill "def foo(): pass  # from my research proposal" = "code-checker"
  /\ _detect_skill "def foo(): pass  # from my research proposal" <> "logic-auditor".
Proof. repeat split; try reflexivity. discriminate. Qed.

(** C10: a code keyword anywhere in the text, in any letter case, gives
    code-checker whatever else the text holds; a document keyword in any
    letter case gives logic-auditor when no code keyword matches; the
    classification of a text is that of its lowercased form. *)
Theorem detect_skill_precedence :
  (forall kw u pre post,
      In kw code_keywords -> lower u = kw ->
      _detect_skill (pre ++ u ++ post) = "code-checker")
  /\ (forall kw u pre post,
        In kw document_keywords -> lower u = kw ->
        any (fun k => contains (lower (pre ++ u ++ post)) k) code_keywords = false ->
        _detect_skill (pre ++ u ++ post) = "logic-auditor")
  /\ (forall text, _detect_skill (lower text) = _detect_skill text).
Proof.
  split; [|split].
  - intros; now apply (detect_code_inside kw).
  - intros; now apply (detect_document_inside kw).
  - intros text. unfold _detect_skill. now rewrite lower_idem.
Qed.

Lemma detect_skill_precedence_witness :
  In "import " code_keywords /\ lower "IMPORT " = "import "
  /\ _detect_skill ("A paper on analysis: " ++ "IMPORT " ++ "os") = "code-checker"
  /\ In "thesis" document_keywords /\ lower "Thesis" = "thesis"
  /\ any (fun k => contains (lower ("My " ++ "Thesis" ++ " draft")) k) code_keywords = false
  /\ _detect_skill ("My " ++ "Thesis" ++ " draft") = "logic-auditor".
Proof.
  assert (H1 : In "import " code_keywords) by (simpl; auto).
  assert (H2 : In "thesis" document_keywords) by (simpl; tauto).
  split; [exact H1|]. split; [reflexivity|]. split.
  - apply (proj1 detect_skill_precedence "import " "IMPORT " _ _ H1 eq_refl).
  - split; [exact H2|]. split; [reflexivity|]. split; [reflexivity|].
    apply (proj1 (proj2 detect_skill_precedence) "thesis" "Thesis" "My " " draft" H2 eq_refl).
    reflexivity.
Defined.

(** ** Mode and search toggles *)

(** C9: [set_mode] sets the mode and clears the active skill, [set_search]
    sets the search flag, and neither touches any other field; after any
    non-empty sequence of [set_mode] calls the active skill is [None]. *)
Theorem set_mode_set_search_frame :
  (forall d self,
      devil_mode (set_mode d self) = d
      /\ active_skill (set_mode d self) = None
      /\ history (set_mode d self) = history self
      /\ use_web_search (set_mode d self) = use_web_search self
      /\ skills_metadata (set_mode d self) = skills_metadata self)
  /\ (forall e self,
        use_web_search (set_search e self) = e
        /\ devil_mode (set_search e self) = devil_mode self
        /\ active_skill (set_search e self) = active_skill self
        /\ history (set_search e self) = history self
        /\ skills_metadata (set_search e self) = skills_metadata self)
  /\ (forall ds d self,
        active_skill (fold_left (fun a m => set_mode m a) (ds ++ [d])%list self) = None)
  /\ (forall self,
        active_skill (set_mode true (set_mode false (set_mode true self))) = None).
Proof.
  repeat split.
  intros ds d self. rewrite fold_left_app. reflexivity.
Qed.

(** ** Dictionaries *)

Lemma dict_get_set (q k v : string) (d : dict) :
  dict_get q (dict_set k v d) = if String.eqb k q then Some v else dict_get q d.
Proof.
  induction d as [|[k' v'] d IH]; simpl.
  - reflexivity.
  - destruct (String.eqb_spec k' k) as [->|Hk]; simpl.
    + destruct (String.eqb k q); reflexivity.
    + rewrite IH. destruct (String.eqb_spec k' q) as [->|]; [|reflexivity].
      apply not_eq_sym, String.eqb_neq in Hk. now rewrite Hk.
Qed.

Lemma keys_set (k v : string) (d : dict) :
  keys (dict_set k v d)
  = (keys d ++ (if existsb (String.eqb k) (keys d) then [] else [k]))%list.
Proof.
  unfold keys. induction d as [|[k' v'] d IH]; simpl.
  - reflexivity.
  - rewrite (String.eqb_sym k k').
    destruct (String.eqb k' k); simpl.
    + now rewrite app_nil_r.
    + now rewrite IH.
Qed.

Lemma keys_set_In (k v : string) (d : dict) (x : string) :
  In x (keys (dict_set k v d)) <-> x = k \/ In x (keys d).
Proof.
  rewrite keys_set, in_app_iff.
  destruct (existsb (String.eqb k) (keys d)) eqn:E.
  - apply existsb_exists in E as (y & Hy & Heq). apply String.eqb_eq in Heq. subst y.
    split.
    + intros [H|[]]. now right.
    + intros [->|H]; left; assumption.
  - split.
    + intros [H|[H|[]]]; [now right | now left].
    + intros [->|H]; [right; now left | now left].
Qed.

Lemma keys_set_NoDup (k v : string) (d : dict) :
  NoDup (keys d) -> NoDup (keys (dict_set k v d)).
Proof.
  intros H. rewrite keys_set.
  destruct (existsb (String.eqb k) (keys d)) eqn:E.
  - now rewrite app_nil_r.
  - apply NoDup_app.
    + exact H.
    + constructor; [intros [] | constructor].
    + intros x Hx [Hkx|[]]. subst x.
      assert (existsb (String.eqb k) (keys d) = true); [|congruence].
      apply existsb_exists. exists k. split; [exact Hx | apply String.eqb_refl].
Qed.

Lemma dict_get_update (q : string) (other d : dict) :
  dict_get q (dict_update d other)
  = match assoc_last q other with
    | Some v => Some v
    | None => dict_get q d
    end.
Proof.
  unfold dict_update. revert d.
  induction other as [|[k v] other IH]; intros d; simpl.
  - reflexivity.
  - rewrite IH. destruct (assoc_last q other); [reflexivity|].
    rewrite dict_get_set. destruct (String.eqb k q); reflexivity.
Qed.

Lemma keys_update (other d : dict) :
  exists extra, keys (dict_update d other) = (keys d ++ extra)%list.
Proof.
  unfold dict_update. revert d.
  induction other as [|[k v] other IH]; intros d; simpl.
  - exists []. now rewrite app_nil_r.
  - destruct (IH (dict_set k v d)) as [extra ->]. rewrite keys_set.
    eexists. now rewrite <- app_assoc.
Qed.

Lemma keys_update_NoDup (other d : dict) :
  NoDup (keys d) -> NoDup (keys (dict_update d other)).
Proof.
  unfold dict_update. revert d.
  induction other as [|[k v] other IH]; intros d H; simpl; [exact H|].
  apply IH, keys_set_NoDup, H.
Qed.

Lemma keys_update_In (other d : dict) (x : string) :
  In x (keys (dict_update d other)) <-> In x (keys other) \/ In x (keys d).
Proof.
  unfold dict_update. revert d.
  induction other as [|[k v] other IH]; intros d; simpl.
  - tauto.
  - rewrite IH, keys_set_In. split; intros H; intuition auto.
Qed.

Lemma dict_get_None (q : string) (d : dict) :
  ~ In q (keys d) -> dict_get q d = None.
Proof.
  induction d as [|[k v] d IH]; simpl; intros H; [reflexivity|].
  destruct (String.eqb_spec k q) as [->|]; [tauto|]. apply IH. tauto.
Qed.

Lemma dict_get_of (q : string) (pairs : list (string * string)) :
  dict_get q (dict_of pairs) = assoc_last q pairs.
Proof.
  unfold dict_of. rewrite dict_get_update. simpl.
  destruct (assoc_last q pairs); reflexivity.
Qed.

Lemma assoc_last_NoDup (q : string) (d : dict) :
  NoDup (keys d) -> assoc_last q d = dict_get q d.
Proof.
  induction d as [|[k v] d IH]; simpl; intros H; [reflexivity|].
  inversion H as [|? ? Hk Hd]; subst. rewrite (IH Hd).
  destruct (String.eqb_spec k q) as [->|].
  - now rewrite (dict_get_None _ _ Hk).
  - destruct (dict_get q d); reflexivity.
Qed.

Lemma keys_of_NoDup (pairs : list (string * string)) : NoDup (keys (dict_of pairs)).
Proof. apply keys_update_NoDup. constructor. Qed.

(** Building a dict from pairs with distinct keys keeps the pairs. *)
Lemma dict_of_distinct (pairs : list (string * string)) :
  NoDup (map fst pairs) -> dict_of pairs = pairs.
Proof.
  unfold dict_of, dict_update.
  enough (H : forall d, NoDup (keys d ++ map fst pairs) ->
            fold_left (fun acc kv => dict_set (fst kv) (snd kv) acc) pairs d
            = (d ++ pairs)%list) by (apply (H [])).
  induction pairs as [|[k v] pairs IH]; intros d H; simpl.
  - now rewrite app_nil_r.
  - assert (Hk : dict_set k v d = (d ++ [(k, v)])%list).
    { clear IH. induction d as [|[k' v'] d IHd]; simpl; [reflexivity|].
      simpl in H. inversion H as [|? ? Hn Hd]; subst.
      destruct (String.eqb_spec k' k) as [->|].
      - exfalso. apply Hn, in_or_app. right. left. reflexivity.
      - now rewrite (IHd Hd). }
    rewrite Hk, IH.
    + now rewrite <- app_assoc.
    + unfold keys in *. rewrite map_app, <- app_assoc. exact H.
Qed.

(** ** Running programs *)

Lemma run_bind {W A B : Type} (h : handler W) (p : prog A) (f : A -> prog B) (w : W) :
  run h (bind p f) w
  = let '(t1, a, w1) := run h p w in
    let '(t2, b, w2) := run h (f a) w1 in
    ((t1 ++ t2)%list, b, w2).
Proof.
  revert w. induction p as [r|s k IH|X e k IH]; intros w; simpl.
  - destruct (run h (f r) w) as [[t2 b] w2]. reflexivity.
  - rewrite IH. destruct (run h k w) as [[t1 a] w1].
    destruct (run h (f a) w1) as [[t2 b] w2]. reflexivity.
  - destruct (h X e w) as [x w1]. rewrite IH.
    destruct (run h (k x) w1) as [[t1 a] w2].
    destruct (run h (f a) w2) as [[t2 b] w3]. reflexivity.
Qed.

Lemma trace_bind {W A B : Type} (h : handler W) (p : prog A) (f : A -> prog B) (w : W) :
  trace_of h (bind p f) w
  = (trace_of h p w ++ trace_of h (f (result_of h p w)) (world_after h p w))%list.
Proof.
  unfold trace_of, result_of, world_after. rewrite run_bind.
  destruct (run h p w) as [[t1 a] w1]. simpl.
  destruct (run h (f a) w1) as [[t2 b] w2]. reflexivity.
Qed.

Lemma result_bind {W A B : Type} (h : handler W) (p : prog A) (f : A -> prog B) (w : W) :
  result_of h (bind p f) w = result_of h (f (result_of h p w)) (world_after h p w).
Proof.
  unfold trace_of, result_of, world_after. rewrite run_bind.
  destruct (run h p w) as [[t1 a] w1]. simpl.
  destruct (run h (f a) w1) as [[t2 b] w2]. reflexivity.
Qed.

Lemma world_bind {W A B : Type} (h : handler W) (p : prog A) (f : A -> prog B) (w : W) :
  world_after h (bind p f) w = world_after h (f (result_of h p w)) (world_after h p w).
Proof.
  unfold trace_of, result_of, world_after. rewrite run_bind.
  destruct (run h p w) as [[t1 a] w1]. simpl.
  destruct (run h (f a) w1) as [[t2 b] w2]. reflexivity.
Qed.

Lemma run_parts {W R : Type} (h : handler W) (p : prog R) (w : W) :
  run h p w = (trace_of h p w, result_of h p w, world_after h p w).
Proof. unfold trace_of, result_of, world_after. now destruct (run h p w) as [[t r] w']. Qed.


(** ** Concurrent search *)

Lemma search_answers_queries {W : Type} (h : handler W) (queries : list string) (w : W) :
  map fst (fst (search_answers h queries w)) = queries.
Proof.
  revert w. induction queries as [|q queries IH]; intros w; simpl; [reflexivity|].
  destruct (h _ (DDGS_text q) w) as [a w1]. specialize (IH w1).
  destruct (search_answers h queries w1) as [l w2]. simpl in *. now rewrite IH.
Qed.

Lemma run_search_web {W : Type} (h : handler W) (q : string) (w : W) :
  run h (_search_web q) w
  = let '(a, w1) := h _ (DDGS_text q) w in ([Searched q a], render_search q a, w1).
Proof. simpl. destruct (h _ (DDGS_text q) w) as [a w1]. reflexivity. Qed.

Lemma run_gather_search {W : Type} (h : handler W) (queries : list string) (w : W) :
  run h (gather (map _search_web queries)) w
  = (map searched (fst (search_answers h queries w)),
     map (fun qa => snd (rendered qa)) (fst (search_answers h queries w)),
     snd (search_answers h queries w)).
Proof.
  revert w. induction queries as [|q queries IH]; intros w; [reflexivity|].
  change (gather (map _search_web (q :: queries)))
    with (bind (_search_web q)
            (fun r => bind (gather (map _search_web queries)) (fun rs => Ret (r :: rs)))).
  rewrite run_bind, run_search_web. simpl search_answers.
  destruct (h _ (DDGS_text q) w) as [a w1].
  rewrite run_bind, IH.
  destruct (search_answers h queries w1) as [l w2]. simpl.
  now rewrite app_nil_r.
Qed.

Lemma combine_fst_map {A B C : Type} (g : A * B -> C) (l : list (A * B)) :
  combine (map fst l) (map g l) = map (fun x => (fst x, g x)) l.
Proof. induction l as [|x l IH]; simpl; [reflexivity | now rewrite IH]. Qed.

(** One run of [multi_search]: a search call per query, in order, and the
    dict of the rendered answers. *)
Lemma run_multi_search {W : Type} (h : handler W) (queries : list string) (w : W) :
  run h (multi_search queries) w
  = (map searched (fst (search_answers h queries w)),
     dict_of (map rendered (fst (search_answers h queries w))),
     snd (search_answers h queries w)).
Proof.
  unfold multi_search. rewrite run_bind, run_gather_search. simpl.
  rewrite app_nil_r. f_equal. f_equal. f_equal.
  rewrite <- (search_answers_queries h queries w) at 1.
  apply combine_fst_map.
Qed.

Lemma assoc_last_In (q v : string) (l : list (string * string)) :
  NoDup (map fst l) -> In (q, v) l -> assoc_last q l = Some v.
Proof.
  induction l as [|[k x] l IH]; simpl; intros Hnd Hin; [destruct Hin|].
  inversion Hnd as [|? ? Hk Hl]; subst.
  destruct Hin as [Heq|Hin].
  - inversion Heq; subst.
    rewrite (assoc_last_NoDup q l Hl), dict_get_None, String.eqb_refl; auto.
  - now rewrite (IH Hl Hin).
Qed.

(** C2: for pairwise distinct queries, [multi_search] calls the search
    engine once per query and returns a dict with exactly one entry per
    query, in the order of the queries; the entry of a query is made from
    the answer to its own call alone: [Search failed: reason] when the
    call raised, [No results: query] when it returned nothing. *)
Theorem multi_search_isolates_failures :
  forall (W : Type) (h : handler W) (w : W) (queries : list string),
    NoDup queries ->
    exists answers : list (string * outcome (list SearchHit)),
      map fst answers = queries
      /\ trace_of h (multi_search queries) w = map searched answers
      /\ result_of h (multi_search queries) w = map rendered answers
      /\ length (result_of h (multi_search queries) w) = length queries
      /\ keys (result_of h (multi_search queries) w) = queries
      /\ (forall q a, In (q, a) answers ->
            dict_get q (result_of h (multi_search queries) w) = Some (render_search q a))
      /\ (forall q e, In (q, Raised e) answers ->
            dict_get q (result_of h (multi_search queries) w)
            = Some ("[Search failed: " ++ e ++ "]"))
      /\ (forall q, In (q, Returned []) answers ->
            dict_get q (result_of h (multi_search queries) w)
            = Some ("[No results: " ++ q ++ "]")).
Proof.
  intros W h w queries Hnd.
  set (answers := fst (search_answers h queries w)).
  assert (Hq : map fst answers = queries) by apply search_answers_queries.
  assert (Hk : map fst (map rendered answers) = queries).
  { rewrite map_map. exact Hq. }
  assert (Hr : result_of h (multi_search queries) w = map rendered answers).
  { unfold result_of. rewrite run_multi_search. simpl.
    apply dict_of_distinct. rewrite Hk. exact Hnd. }
  assert (Hget : forall q a, In (q, a) answers ->
            dict_get q (result_of h (multi_search queries) w) = Some (render_search q a)).
  { intros q a Hin. rewrite Hr.
    rewrite <- assoc_last_NoDup by (unfold keys; rewrite Hk; exact Hnd).
    apply assoc_last_In; [rewrite Hk; exact Hnd|].
    apply (in_map rendered) in Hin. exact Hin. }
  exists answers. split; [exact Hq|]. split.
  { unfold trace_of. now rewrite run_multi_search. }
  split; [exact Hr|]. split.
  { rewrite Hr, length_map, <- Hq, length_map. reflexivity. }
  split.
  { rewrite Hr. exact Hk. }
  split; [exact Hget|]. split.
  - intros q e Hin. apply (Hget q (Raised e) Hin).
  - intros q Hin. apply (Hget q (Returned []) Hin).
Qed.

Lemma multi_search_isolates_failures_witness :
  NoDup ["a"; "b"; "c"]
  /\ result_of (play world_partial) (multi_search ["a"; "b"; "c"]) (0, 0)
     = [("a", "- T: B..." ++ LF ++ "  Source: https://example.org/a");
        ("b", "[Search failed: rate limit]");
        ("c", "[No results: c]")]
  /\ exists answers,
      map fst answers = ["a"; "b"; "c"]
      /\ trace_of (play world_partial) (multi_search ["a"; "b"; "c"]) (0, 0)
         = map searched answers
      /\ length (result_of (play world_partial) (multi_search ["a"; "b"; "c"]) (0, 0)) = 3.
Proof.
  assert (Hnd : NoDup ["a"; "b"; "c"]).
  { repeat constructor; simpl; intros H;
      repeat destruct H as [H|H]; try discriminate; exact H. }
  split; [exact Hnd|]. split; [reflexivity|].
  destruct (multi_search_isolates_failures _ (play world_partial) (0, 0) _ Hnd)
    as (answers & H1 & H2 & _ & H4 & _).
  exists answers. repeat split; assumption.
Defined.

(** ** Runs in projection form *)

Lemma run_ret {W R : Type} (h : handler W) (r : R) (w : W) :
  run h (Ret r) w = ([], r, w).
Proof. reflexivity. Qed.

Lemma run_yield {W R : Type} (h : handler W) (s : string) (k : prog R) (w : W) :
  run h (Yield s k) w = (Out s :: trace_of h k w, result_of h k w, world_after h k w).
Proof. simpl. now rewrite (run_parts h k w). Qed.

Lemma run_call {W R X : Type} (h : handler W) (e : Ev X) (k : X -> prog R) (w : W) :
  run h (Call e k) w
  = (observe e (fst (h _ e w)) :: trace_of h (k (fst (h _ e w))) (snd (h _ e w)),
     result_of h (k (fst (h _ e w))) (snd (h _ e w)),
     world_after h (k (fst (h _ e w))) (snd (h _ e w))).
Proof.
  simpl. destruct (h X e w) as [x w1]. simpl. now rewrite (run_parts h (k x) w1).
Qed.

Lemma run_bind_parts {W A B : Type} (h : handler W) (p : prog A) (f : A -> prog B) (w : W) :
  run h (bind p f) w
  = ((trace_of h p w ++ trace_of h (f (result_of h p w)) (world_after h p w))%list,
     result_of h (f (result_of h p w)) (world_after h p w),
     world_after h (f (result_of h p w)) (world_after h p w)).
Proof. now rewrite run_parts, trace_bind, result_bind, world_bind. Qed.

Lemma trace_yield {W R : Type} (h : handler W) (s : string) (k : prog R) (w : W) :
  trace_of h (Yield s k) w = Out s :: trace_of h k w.
Proof. unfold trace_of. now rewrite run_yield. Qed.

Lemma result_yield {W R : Type} (h : handler W) (s : string) (k : prog R) (w : W) :
  result_of h (Yield s k) w = result_of h k w.
Proof. unfold result_of at 1. now rewrite run_yield. Qed.

Lemma world_yield {W R : Type} (h : handler W) (s : string) (k : prog R) (w : W) :
  world_after h (Yield s k) w = world_after h k w.
Proof. unfold world_after at 1. now rewrite run_yield. Qed.

Lemma trace_call {W R X : Type} (h : handler W) (e : Ev X) (k : X -> prog R) (w : W) :
  trace_of h (Call e k) w
  = observe e (fst (h _ e w)) :: trace_of h (k (fst (h _ e w))) (snd (h _ e w)).
Proof. unfold trace_of at 1. now rewrite run_call. Qed.

Lemma result_call {W R X : Type} (h : handler W) (e : Ev X) (k : X -> prog R) (w : W) :
  result_of h (Call e k) w = result_of h (k (fst (h _ e w))) (snd (h _ e w)).
Proof. unfold result_of at 1. now rewrite run_call. Qed.

Lemma world_call {W R X : Type} (h : handler W) (e : Ev X) (k : X -> prog R) (w : W) :
  world_after h (Call e k) w = world_after h (k (fst (h _ e w))) (snd (h _ e w)).
Proof. unfold world_after at 1. now rewrite run_call. Qed.

Lemma trace_ret {W R : Type} (h : handler W) (r : R) (w : W) : trace_of h (Ret r) w = [].
Proof. reflexivity. Qed.

Lemma result_ret {W R : Type} (h : handler W) (r : R) (w : W) : result_of h (Ret r) w = r.
Proof. reflexivity. Qed.

Lemma world_ret {W R : Type} (h : handler W) (r : R) (w : W) : world_after h (Ret r) w = w.
Proof. reflexivity. Qed.

Lemma trace_multi_search {W : Type} (h : handler W) (queries : list string) (w : W) :
  trace_of h (multi_search queries) w = map searched (fst (search_answers h queries w)).
Proof. unfold trace_of. now rewrite run_multi_search. Qed.

Lemma result_multi_search {W : Type} (h : handler W) (queries : list string) (w : W) :
  result_of h (multi_search queries) w
  = dict_of (map rendered (fst (search_answers h queries w))).
Proof. unfold result_of. now rewrite run_multi_search. Qed.

Lemma world_multi_search {W : Type} (h : handler W) (queries : list string) (w : W) :
  world_after h (multi_search queries) w = snd (search_answers h queries w).
Proof. unfold world_after. now rewrite run_multi_search. Qed.

Lemma run_validate_search {W : Type} (h : handler W) (u : string) (d : dict) (w : W) :
  run h (_validate_search u d) w
  = ([Clock (fst (h _ Now w));
      Validated (fst (h _ Now w)) u d
        (fst (h _ (Validate_ainvoke (fst (h _ Now w)) u d) (snd (h _ Now w))))],
     match fst (h _ (Validate_ainvoke (fst (h _ Now w)) u d) (snd (h _ Now w))) with
     | Returned r => r
     | Raised _ => None
     end,
     snd (h _ (Validate_ainvoke (fst (h _ Now w)) u d) (snd (h _ Now w)))).
Proof.
  simpl. destruct (h _ Now w) as [today w1]. simpl.
  destruct (h _ (Validate_ainvoke today u d) w1) as [[r|e] w2]; reflexivity.
Qed.

Lemma trace_validate_search {W : Type} (h : handler W) (u : string) (d : dict) (w : W) :
  trace_of h (_validate_search u d) w
  = [Clock (fst (h _ Now w));
     Validated (fst (h _ Now w)) u d
       (fst (h _ (Validate_ainvoke (fst (h _ Now w)) u d) (snd (h _ Now w))))].
Proof. unfold trace_of. now rewrite run_validate_search. Qed.

Lemma result_validate_search {W : Type} (h : handler W) (u : string) (d : dict) (w : W) :
  result_of h (_validate_search u d) w
  = match fst (h _ (Validate_ainvoke (fst (h _ Now w)) u d) (snd (h _ Now w))) with
    | Returned r => r
    | Raised _ => None
    end.
Proof. unfold result_of. now rewrite run_validate_search. Qed.

Lemma world_validate_search {W : Type} (h : handler W) (u : string) (d : dict) (w : W) :
  world_after h (_validate_search u d) w
  = snd (h _ (Validate_ainvoke (fst (h _ Now w)) u d) (snd (h _ Now w))).
Proof. unfold world_after. now rewrite run_validate_search. Qed.

Create Rewrite HintDb run_eqs.
#[export] Hint Rewrite
  @trace_bind @result_bind @world_bind
  @trace_yield @result_yield @world_yield
  @trace_call @result_call @world_call
  @trace_ret @result_ret @world_ret
  @trace_multi_search @result_multi_search @world_multi_search
  @trace_validate_search @result_validate_search @world_validate_search
  : run_eqs.

(** ** The retrieval loop *)

(** One round of the loop: the searches, the merge, the validation, and
    then either the end of the loop or the next round. *)
Lemma run_react_loop_round {W : Type} (h : handler W) (i : nat) (indices : list nat)
    (u q : string) (qs : list string) (d : dict) (n : nat) (w : W) :
  let queries := q :: qs in
  let answers := fst (search_answers h queries w) in
  let w1 := snd (search_answers h queries w) in
  let d' := dict_update d (dict_of (map rendered answers)) in
  let today := fst (h _ Now w1) in
  let w2 := snd (h _ Now w1) in
  let a := fst (h _ (Validate_ainvoke today u d') w2) in
  let w3 := snd (h _ (Validate_ainvoke today u d') w2) in
  let head := round_head queries answers today u d' a in
  run h (react_loop (i :: indices) u queries d n) w
  = if stops a then (head, (d', i + 1), w3)
    else
      let nq := match a with
                | Returned (Some v) => new_queries v
                | _ => []
                end in
      ((head ++ refining nq
        ++ trace_of h (react_loop indices u nq d' (i + 1)) w3)%list,
       result_of h (react_loop indices u nq d' (i + 1)) w3,
       world_after h (react_loop indices u nq d' (i + 1)) w3).
Proof.
  intros queries answers w1 d' today w2 a w3 head.
  change (react_loop (i :: indices) u queries d n)
    with (Yield ("[STAGE]Searching: " ++ join ", " queries ++ LF)
           (bind (multi_search queries) (fun results =>
              Yield ("[STAGE]Found " ++ str_of_nat (length results)
                     ++ " results, validating..." ++ LF)
                (bind (_validate_search u (dict_update d results)) (fun validation =>
                   match validation with
                   | None => Ret (dict_update d results, i + 1)
                   | Some v =>
                       if is_satisfied v then Ret (dict_update d results, i + 1)
                       else
                         bind match new_queries v with
                              | [] => Ret tt
                              | _ => yield ("[STAGE]Refining search..." ++ LF)
                              end
                           (fun _ => react_loop indices u (new_queries v)
                                       (dict_update d results) (i + 1))
                   end))))).
  rewrite run_parts. autorewrite with run_eqs.
  fold answers w1 d' today w2 a w3.
  unfold head, round_head. clearbody a w3.
  destruct a as [[v|]|e]; simpl stops.
  - destruct (is_satisfied v).
    + autorewrite with run_eqs. reflexivity.
    + autorewrite with run_eqs. cbv zeta.
      destruct (new_queries v) as [|q' qs']; autorewrite with run_eqs; simpl;
        rewrite <- ?app_assoc; reflexivity.
  - autorewrite with run_eqs. reflexivity.
  - autorewrite with run_eqs. reflexivity.
Qed.

(** ** Cutting a trace at an event *)

Lemma split_skip (P : obs -> bool) (l1 l2 pre : list obs) (x : obs) (post : list obs) :
  (l1 ++ l2 = pre ++ x :: post)%list ->
  forallb (fun o => negb (P o)) l1 = true -> P x = true ->
  exists pre', pre = (l1 ++ pre')%list /\ l2 = (pre' ++ x :: post)%list.
Proof.
  revert pre. induction l1 as [|c l1 IH]; intros pre Heq Hno Hx.
  - exists pre. split; [reflexivity | exact Heq].
  - simpl in Hno. apply andb_true_iff in Hno as [Hc Hno].
    destruct pre as [|c' pre]; simpl in Heq; inversion Heq; subst.
    + rewrite Hx in Hc. discriminate.
    + destruct (IH pre H1 Hno Hx) as (pre' & -> & ->).
      exists pre'. split; reflexivity.
Qed.

Lemma split_tail (P : obs -> bool) (t rest pre : list obs) (x : obs) (post : list obs) :
  (t ++ rest = pre ++ x :: post)%list ->
  forallb (fun o => negb (P o)) rest = true -> P x = true ->
  exists post', t = (pre ++ x :: post')%list /\ post = (post' ++ rest)%list.
Proof.
  revert pre. induction t as [|c t IH]; intros pre Heq Hno Hx.
  - simpl in Heq. subst rest. rewrite forallb_app in Hno.
    apply andb_true_iff in Hno as [_ Hno]. simpl in Hno. rewrite Hx in Hno. discriminate.
  - destruct pre as [|c' pre]; simpl in Heq; inversion Heq; subst.
    + exists t. split; reflexivity.
    + destruct (IH pre H1 Hno Hx) as (post' & -> & ->).
      exists post'. split; reflexivity.
Qed.

(** ** The most recent search *)

Lemma latest_app (q : string) (a b : list obs) :
  latest q (a ++ b)
  = match latest q b with
    | Some v => Some v
    | None => latest q a
    end.
Proof.
  induction a as [|o a IH]; simpl.
  - destruct (latest q b); reflexivity.
  - rewrite IH. destruct (latest q b); reflexivity.
Qed.

Lemma latest_quiet (q : string) (t : list obs) :
  forallb (fun o => negb (is_search_call o)) t = true -> latest q t = None.
Proof.
  induction t as [|o t IH]; simpl; intros H; [reflexivity|].
  apply andb_true_iff in H as [Ho Ht]. rewrite (IH Ht).
  destruct o; try reflexivity. discriminate.
Qed.

Lemma latest_searched (q : string) (answers : list (string * outcome (list SearchHit))) :
  latest q (map searched answers) = assoc_last q (map rendered answers).
Proof.
  induction answers as [|[k a] answers IH]; simpl; [reflexivity|].
  now rewrite IH.
Qed.

Lemma searched_no_validate (answers : list (string * outcome (list SearchHit))) :
  forallb (fun o => negb (is_validate_call o)) (map searched answers) = true.
Proof. induction answers as [|x l IH]; simpl; [reflexivity | exact IH]. Qed.

Lemma refining_no_validate (qs : list string) :
  forallb (fun o => negb (is_validate_call o)) (refining qs) = true.
Proof. destruct qs; reflexivity. Qed.

Lemma refining_no_search (qs : list string) :
  forallb (fun o => negb (is_search_call o)) (refining qs) = true.
Proof. destruct qs; reflexivity. Qed.

(** The merged map answers a key with the most recent rendering. *)
Lemma dict_get_merged (q : string) (answers : list (string * outcome (list SearchHit)))
    (d : dict) :
  dict_get q (dict_update d (dict_of (map rendered answers)))
  = match latest q (map searched answers) with
    | Some v => Some v
    | None => dict_get q d
    end.
Proof.
  rewrite dict_get_update, (assoc_last_NoDup _ _ (keys_of_NoDup _)).
  now rewrite dict_get_of, latest_searched.
Qed.

(** ** The retrieval loop, round by round *)

Lemma trace_react_loop_nil {W : Type} (h : handler W) (u : string) (qs : list string)
    (d : dict) (n : nat) (w : W) :
  run h (react_loop [] u qs d n) w = ([], (d, n), w).
Proof. reflexivity. Qed.

Lemma trace_react_loop_idle {W : Type} (h : handler W) (indices : list nat) (u : string)
    (d : dict) (n : nat) (w : W) :
  run h (react_loop indices u [] d n) w = ([], (d, n), w).
Proof. destruct indices; reflexivity. Qed.

Lemma trace_react_loop_round {W : Type} (h : handler W) (i : nat) (indices : list nat)
    (u q : string) (qs : list string) (d : dict) (n : nat) (w : W) :
  exists answers today a w3,
    let d' := dict_update d (dict_of (map rendered answers)) in
    map fst answers = q :: qs
    /\ trace_of h (react_loop (i :: indices) u (q :: qs) d n) w
       = ((Out ("[STAGE]Searching: " ++ join ", " (q :: qs) ++ LF)
           :: map searched answers
           ++ [Out ("[STAGE]Found "
                    ++ str_of_nat (length (dict_of (map rendered answers)))
                    ++ " results, validating..." ++ LF);
               Clock today])
          ++ Validated today u d' a :: round_tail h indices u d' i a w3)%list
    /\ result_of h (react_loop (i :: indices) u (q :: qs) d n) w
       = (if stops a then (d', i + 1)
          else result_of h (react_loop indices u
                              match a with
                              | Returned (Some v) => new_queries v
                              | _ => []
                              end d' (i + 1)) w3)
    /\ exists w2, a = fst (h _ (Validate_ainvoke today u d') w2).
Proof.
  pose proof (run_react_loop_round h i indices u q qs d n w) as H.
  cbv zeta in H.
  set (answers := fst (search_answers h (q :: qs) w)) in *.
  set (w1 := snd (search_answers h (q :: qs) w)) in *.
  set (d' := dict_update d (dict_of (map rendered answers))) in *.
  set (today := fst (h _ Now w1)) in *.
  set (w2 := snd (h _ Now w1)) in *.
  set (a := fst (h _ (Validate_ainvoke today u d') w2)) in *.
  set (w3 := snd (h _ (Validate_ainvoke today u d') w2)) in *.
  exists answers, today, a, w3. cbv zeta. fold d'.
  split; [apply search_answers_queries|].
  split; [|split; [|exists w2; reflexivity]].
  - unfold trace_of at 1. rewrite H. unfold round_head, round_tail.
    destruct (stops a); simpl; now rewrite <- !app_assoc.
  - unfold result_of at 1. rewrite H. destruct (stops a); reflexivity.
Qed.

Lemma round_prefix_quiet (s f today : string)
    (answers : list (string * outcome (list SearchHit))) :
  forallb (fun o => negb (is_validate_call o))
    (Out s :: map searched answers ++ [Out f; Clock today])%list = true.
Proof.
  simpl. rewrite forallb_app, searched_no_validate. reflexivity.
Qed.

Lemma latest_round_prefix (q s f today : string)
    (answers : list (string * outcome (list SearchHit))) :
  latest q (Out s :: map searched answers ++ [Out f; Clock today])%list
  = latest q (map searched answers).
Proof.
  change (Out s :: map searched answers ++ [Out f; Clock today])%list
    with ([Out s] ++ map searched answers ++ [Out f; Clock today])%list.
  rewrite !latest_app. simpl. destruct (latest q (map searched answers)); reflexivity.
Qed.

(** Every validation in a run of the loop sees the map the loop started
    with, overwritten by the most recent search of each query; its keys
    extend those of every earlier map; and once a validation answer stops
    the loop, nothing follows it. *)
Lemma react_loop_snapshot {W : Type} (h : handler W) (indices : list nat) :
  forall (u : string) (qs : list string) (d : dict) (n : nat) (w : W)
         (pre post : list obs) (today u' : string) (r : dict)
         (a : outcome (option SearchValidation)),
    trace_of h (react_loop indices u qs d n) w
    = (pre ++ Validated today u' r a :: post)%list ->
    (forall q, dict_get q r = match latest q pre with
                              | Some v => Some v
                              | None => dict_get q d
                              end)
    /\ (exists extra, keys r = (keys d ++ extra)%list)
    /\ (stops a = true ->
        post = [] /\ fst (result_of h (react_loop indices u qs d n) w) = r)
    /\ (forall pre2 post2 today2 u2 r2 a2,
          post = (pre2 ++ Validated today2 u2 r2 a2 :: post2)%list ->
          exists extra, keys r2 = (keys r ++ extra)%list).
Proof.
  induction indices as [|i indices IH]; intros u qs d n w pre post today u' r a Ht.
  { unfold trace_of in Ht. rewrite trace_react_loop_nil in Ht.
    destruct pre; discriminate. }
  destruct qs as [|q qs].
  { unfold trace_of in Ht. rewrite trace_react_loop_idle in Ht.
    destruct pre; discriminate. }
  destruct (trace_react_loop_round h i indices u q qs d n w)
    as (answers & today0 & a0 & w3 & _ & Htr & Hres & _).
  cbv zeta in Htr, Hres.
  set (d' := dict_update d (dict_of (map rendered answers))) in *.
  rewrite Htr in Ht.
  apply (split_skip is_validate_call) in Ht;
    [| apply round_prefix_quiet | reflexivity].
  destruct Ht as (pre' & -> & Ht).
  destruct pre' as [|o pre']; simpl in Ht; inversion Ht; subst; clear Ht.
  - (* the validation of this round *)
    split; [|split; [|split]].
    + intros k. rewrite app_nil_r, latest_round_prefix. apply dict_get_merged.
    + apply keys_update.
    + intros Hs. rewrite Hres. unfold round_tail. now rewrite Hs.
    + intros pre2 post2 today2 u2 r2 a2 Hp. unfold round_tail in Hp.
      destruct (stops a); [destruct pre2; discriminate|].
      apply (split_skip is_validate_call) in Hp;
        [| apply refining_no_validate | reflexivity].
      destruct Hp as (pre3 & _ & Hp).
      destruct (IH _ _ _ _ _ _ _ _ _ _ _ Hp) as (_ & Hk & _). exact Hk.
  - (* a validation of a later round *)
    unfold round_tail in H1. rewrite Hres.
    destruct (stops a0); [destruct pre'; discriminate|].
    apply (split_skip is_validate_call) in H1;
      [| apply refining_no_validate | reflexivity].
    destruct H1 as (pre3 & -> & Hp).
    destruct (IH _ _ _ _ _ _ _ _ _ _ _ Hp) as (Hget & Hk & Hstop & Hlater).
    split; [|split; [|split]].
    + intros k. rewrite (Hget k).
      rewrite latest_app.
      change (Validated today0 u d' a0 :: (refining _ ++ pre3)%list)
        with ([Validated today0 u d' a0] ++ refining
                match a0 with
                | Returned (Some v) => new_queries v
                | _ => []
                end ++ pre3)%list.
      rewrite !latest_app.
      destruct (latest k pre3); [reflexivity|].
      rewrite (latest_quiet k (refining _)) by apply refining_no_search.
      simpl latest at 1. rewrite latest_round_prefix. apply dict_get_merged.
    + destruct Hk as [e1 ->]. destruct (keys_update (dict_of (map rendered answers)) d)
        as [e0 He0]. fold d' in He0. rewrite He0. exists (e0 ++ e1)%list.
      now rewrite app_assoc.
    + exact Hstop.
    + exact Hlater.
Qed.

(** ** Counting rounds *)

Lemma count_app (f : obs -> bool) (a b : list obs) :
  count f (a ++ b) = count f a + count f b.
Proof. unfold count. now rewrite filter_app, length_app. Qed.

Lemma count_cons (f : obs -> bool) (o : obs) (t : list obs) :
  count f (o :: t) = (if f o then 1 else 0) + count f t.
Proof. unfold count. simpl. destruct (f o); reflexivity. Qed.

Lemma count_nil (f : obs -> bool) : count f [] = 0.
Proof. reflexivity. Qed.

Lemma count_searched (f : obs -> bool)
    (answers : list (string * outcome (list SearchHit))) :
  (forall q a, f (Searched q a) = false) -> count f (map searched answers) = 0.
Proof.
  intros H. induction answers as [|[q a] l IH]; [reflexivity|].
  simpl map. rewrite count_cons. unfold searched at 1. simpl. now rewrite H.
Qed.

Lemma count_refining (f : obs -> bool) (qs : list string) :
  f (Out ("[STAGE]Refining search..." ++ LF)) = false -> count f (refining qs) = 0.
Proof.
  intros H. destruct qs; [reflexivity|].
  unfold refining. rewrite count_cons, H. reflexivity.
Qed.

Lemma dispatch_stage (x : string) :
  is_dispatch (Out ("[STAGE]Searching: " ++ x)) = true.
Proof. exact (startswith_app "[STAGE]Searching: " x). Qed.

(** The loop over [k] indices validates at most [k] times; every
    validation follows one dispatch; [iteration_count] ends as the index of
    the last round plus one; the loop makes no other call. *)
Lemma react_loop_count {W : Type} (h : handler W) (k : nat) :
  forall (i0 : nat) (u : string) (qs : list string) (d : dict) (n : nat) (w : W),
    let t := trace_of h (react_loop (seq i0 k) u qs d n) w in
    count is_validate_call t <= k
    /\ count is_dispatch t = count is_validate_call t
    /\ snd (result_of h (react_loop (seq i0 k) u qs d n) w)
       = (if count is_validate_call t =? 0 then n else i0 + count is_validate_call t)%nat
    /\ count is_stream_call t = 0
    /\ count is_extract_call t = 0.
Proof.
  induction k as [|k IH]; intros i0 u qs d n w t.
  { subst t. unfold trace_of, result_of. simpl seq. rewrite trace_react_loop_nil.
    unfold count. simpl. repeat split; lia. }
  destruct qs as [|q qs].
  { subst t. unfold trace_of, result_of. rewrite trace_react_loop_idle.
    unfold count. simpl. repeat split; lia. }
  subst t. simpl seq.
  destruct (trace_react_loop_round h i0 (seq (S i0) k) u q qs d n w)
    as (answers & today & a & w3 & _ & Htr & Hres & _).
  cbv zeta in Htr, Hres.
  set (d' := dict_update d (dict_of (map rendered answers))) in *.
  rewrite Htr, Hres. unfold round_tail.
  rewrite !count_app, !count_cons, !count_app, !count_cons, !count_nil.
  rewrite !count_searched by reflexivity.
  rewrite dispatch_stage. simpl is_dispatch. simpl is_validate_call.
  simpl is_stream_call. simpl is_extract_call.
  destruct (stops a).
  - rewrite !count_nil. simpl. repeat split; lia.
  - set (nq := match a with
               | Returned (Some v) => new_queries v
               | _ => []
               end).
    rewrite !count_app, !count_refining by reflexivity.
    specialize (IH (S i0) u nq d' (i0 + 1) w3). cbv zeta in IH.
    destruct IH as (H1 & H2 & H3 & H4 & H5).
    set (trec := trace_of h (react_loop (seq (S i0) k) u nq d' (i0 + 1)) w3) in *.
    rewrite H3, H2, H4, H5. clear H2 H3 H4 H5.
    set (c := count is_validate_call trec) in *. simpl.
    destruct (Nat.eqb c 0) eqn:E;
      [apply Nat.eqb_eq in E | apply Nat.eqb_neq in E]; repeat split; lia.
Qed.


(** ** The turn *)

Lemma run_extract_search_queries {W : Type} (h : handler W) (u : string) (w : W) :
  run h (_extract_search_queries u) w
  = ([Clock (fst (h _ Now w));
      Extracted (fst (h _ Now w)) u
        (fst (h _ (Extract_ainvoke (fst (h _ Now w)) u) (snd (h _ Now w))))],
     match fst (h _ (Extract_ainvoke (fst (h _ Now w)) u) (snd (h _ Now w))) with
     | Returned (Some result) => queries result
     | _ => []
     end,
     snd (h _ (Extract_ainvoke (fst (h _ Now w)) u) (snd (h _ Now w)))).
Proof.
  simpl. destruct (h _ Now w) as [today w1]. simpl.
  destruct (h _ (Extract_ainvoke today u) w1) as [[[r|]|e] w2]; reflexivity.
Qed.

Lemma trace_extract_search_queries {W : Type} (h : handler W) (u : string) (w : W) :
  trace_of h (_extract_search_queries u) w
  = [Clock (fst (h _ Now w));
     Extracted (fst (h _ Now w)) u
       (fst (h _ (Extract_ainvoke (fst (h _ Now w)) u) (snd (h _ Now w))))].
Proof. unfold trace_of. now rewrite run_extract_search_queries. Qed.

Lemma run_yield_each {W : Type} (h : handler W) (l : list string) (w : W) :
  run h (yield_each l) w = (map Out l, tt, w).
Proof.
  induction l as [|s l IH]; [reflexivity|].
  change (yield_each (s :: l)) with (Yield s (bind (Ret tt) (fun _ => yield_each l))).
  simpl. rewrite IH. reflexivity.
Qed.

Lemma trace_yield_each {W : Type} (h : handler W) (l : list string) (w : W) :
  trace_of h (yield_each l) w = map Out l.
Proof. unfold trace_of. now rewrite run_yield_each. Qed.

Lemma result_yield_each {W : Type} (h : handler W) (l : list string) (w : W) :
  result_of h (yield_each l) w = tt.
Proof. unfold result_of. now rewrite run_yield_each. Qed.

Lemma world_yield_each {W : Type} (h : handler W) (l : list string) (w : W) :
  world_after h (yield_each l) w = w.
Proof. unfold world_after. now rewrite run_yield_each. Qed.

#[export] Hint Rewrite @trace_yield_each @result_yield_each @world_yield_each : run_eqs.

(** The retrieval phase: the stage fragment, the extraction, the loop. *)
Lemma trace_chat_retrieve {W : Type} (h : handler W) (u : string) (w : W) :
  exists today a qs w',
    trace_of h (chat_retrieve u) w
    = ([Out ("[STAGE]Extracting search queries..." ++ LF); Clock today; Extracted today u a]
       ++ trace_of h (react_loop (range max_iterations) u qs [] 0) w')%list
    /\ result_of h (chat_retrieve u) w
       = result_of h (react_loop (range max_iterations) u qs [] 0) w'
    /\ qs = result_of h (_extract_search_queries u) w.
Proof.
  unfold chat_retrieve, yield.
  change (bind (Yield ?s (Ret tt)) ?f) with (Yield s (f tt)).
  eexists _, _, _, _. split; [|split].
  - rewrite trace_yield, trace_bind, trace_extract_search_queries. reflexivity.
  - rewrite result_yield, result_bind. reflexivity.
  - reflexivity.
Qed.

Lemma build_prompt_frame (self : DevilAgent) (u : string) :
  history (snd (_build_prompt self u)) = history self
  /\ use_web_search (snd (_build_prompt self u)) = use_web_search self
  /\ devil_mode (snd (_build_prompt self u)) = devil_mode self
  /\ skills_metadata (snd (_build_prompt self u)) = skills_metadata self.
Proof.
  unfold _build_prompt.
  destruct (devil_mode self) eqn:Hd; simpl; [|now rewrite Hd].
  destruct (active_skill self); [now rewrite Hd|].
  destruct (truthy u); simpl; now rewrite Hd.
Qed.

Lemma stream_agent_history (self : DevilAgent) (u : string) :
  history (stream_agent self u) = (history self ++ [HumanMessage u])%list.
Proof. unfold stream_agent. now rewrite (proj1 (build_prompt_frame _ u)). Qed.

Lemma stream_agent_search (self : DevilAgent) (u : string) :
  use_web_search (stream_agent self u) = use_web_search self.
Proof.
  unfold stream_agent. now rewrite (proj1 (proj2 (build_prompt_frame _ u))).
Qed.

(** The streaming phase: the stream call, the non-empty chunks, and the
    closing fragments. *)
Lemma run_chat_stream {W : Type} (h : handler W) (self : DevilAgent)
    (u ctx : string) (sources : list string) (w : W) :
  let answer := fst (h _ (LLM_astream (stream_messages self u ctx)) w) in
  let contents := filter truthy (fst answer) in
  run h (chat_stream self u ctx sources) w
  = (Streamed (stream_messages self u ctx) answer
     :: map Out (contents ++ closing (stream_agent self u) sources (snd answer))%list,
     match snd answer with
     | Some _ => stream_agent self u
     | None =>
         with_history
           (history (stream_agent self u) ++ [AIMessage (String.concat "" contents)])%list
           (stream_agent self u)
     end,
     snd (h _ (LLM_astream (stream_messages self u ctx)) w)).
Proof.
  intros answer contents. unfold chat_stream.
  unfold stream_messages, stream_agent in *.
  destruct (_build_prompt
              (with_history (history self ++ [HumanMessage u])%list self) u)
    as [prompt self2] eqn:Hbp.
  cbn [fst snd] in *.
  rewrite run_parts. unfold call. autorewrite with run_eqs. cbn [observe].
  fold answer. clearbody answer. destruct answer as [chunks failure].
  cbn [fst snd] in *. subst contents.
  destruct failure as [e|]; unfold yield; autorewrite with run_eqs;
    unfold closing; rewrite ?map_app, ?app_nil_r; reflexivity.
Qed.


Lemma run_chat_search_off {W : Type} (h : handler W) (self : DevilAgent)
    (u : string) (w : W) :
  use_web_search self = false ->
  run h (chat_search self u) w
  = ([Out ("[STAGE]Generating response (offline)..." ++ LF)], ("", []), w).
Proof. intros H. unfold chat_search. rewrite H. reflexivity. Qed.

(** With web search on, the search phase is the retrieval phase followed,
    when something was found, by the clock and the generation stage; the
    sources are collected from the accumulated map. *)
Lemma run_chat_search_on {W : Type} (h : handler W) (self : DevilAgent)
    (u : string) (w : W) :
  use_web_search self = true ->
  exists gen,
    trace_of h (chat_search self u) w = (trace_of h (chat_retrieve u) w ++ gen)%list
    /\ (gen = [] \/ exists today,
          gen = [Clock today; Out ("[STAGE]Generating response..." ++ LF)])
    /\ snd (result_of h (chat_search self u) w)
       = collect_sources (fst (result_of h (chat_retrieve u) w))
    /\ (fst (result_of h (chat_retrieve u) w) = [] ->
        result_of h (chat_search self u) w = ("", [])).
Proof.
  intros H. unfold chat_search. rewrite H.
  rewrite trace_bind, result_bind.
  destruct (fst (result_of h (chat_retrieve u) w)) as [|qr all_results] eqn:Hall.
  - exists []. autorewrite with run_eqs. repeat split; auto.
  - eexists. split; [reflexivity|]. unfold call, yield.
    autorewrite with run_eqs. cbn [observe]. split; [|split].
    + right. eexists. reflexivity.
    + reflexivity.
    + discriminate.
Qed.

Lemma quiet_app (a b : list obs) : quiet (a ++ b) = quiet a && quiet b.
Proof. apply forallb_app. Qed.

Lemma quiet_outs (l : list string) : quiet (map Out l) = true.
Proof. induction l as [|s l IH]; [reflexivity | exact IH]. Qed.

Lemma count_outs (f : obs -> bool) (l : list string) :
  (forall s, f (Out s) = false) -> count f (map Out l) = 0.
Proof.
  intros H. induction l as [|s l IH]; [reflexivity|].
  simpl map. now rewrite count_cons, H, IH.
Qed.

(** The trace of the streaming phase holds one stream call and no search
    or validation. *)
Lemma chat_stream_quiet {W : Type} (h : handler W) (self : DevilAgent)
    (u ctx : string) (sources : list string) (w : W) :
  quiet (trace_of h (chat_stream self u ctx sources) w) = true
  /\ count is_stream_call (trace_of h (chat_stream self u ctx sources) w) = 1.
Proof.
  unfold trace_of. rewrite run_chat_stream. cbv zeta. cbn [fst].
  split.
  - unfold quiet. cbn [forallb is_search_call is_validate_call orb negb andb].
    apply quiet_outs.
  - rewrite count_cons, count_outs by reflexivity. reflexivity.
Qed.

(** The shape of a turn: a quiet opening, the retrieval loop, and a quiet
    ending that holds the one stream call. *)
Lemma chat_shape {W : Type} (h : handler W) (self : DevilAgent) (u : string) (w : W) :
  exists opening ending qs w',
    trace_of h (chat self u) w
    = (opening ++ trace_of h (react_loop (range max_iterations) u qs [] 0) w'
       ++ ending)%list
    /\ quiet opening = true /\ quiet ending = true
    /\ count is_stream_call opening = 0 /\ count is_stream_call ending = 1
    /\ (use_web_search self = true -> qs = result_of h (_extract_search_queries u) w)
    /\ (use_web_search self = false -> opening = [] /\ qs = []).
Proof.
  unfold chat. rewrite trace_bind.
  set (self0 := with_history [] self).
  set (found := result_of h (chat_search self0 u) w).
  set (w1 := world_after h (chat_search self0 u) w).
  destruct (chat_stream_quiet h self0 u (fst found) (snd found) w1) as [Hq Hc].
  set (ts := trace_of h (chat_stream self0 u (fst found) (snd found)) w1) in *.
  clearbody ts found w1.
  destruct (use_web_search self) eqn:Hs.
  - destruct (run_chat_search_on h self0 u w Hs) as (gen & Htr & Hgen & _).
    destruct (trace_chat_retrieve h u w) as (today & a & qs & w' & Hret & _ & Hqs).
    rewrite Htr, Hret.
    exists [Out ("[STAGE]Extracting search queries..." ++ LF); Clock today;
            Extracted today u a], (gen ++ ts)%list, qs, w'.
    rewrite <- !app_assoc. split; [reflexivity|].
    split; [reflexivity|]. split.
    { rewrite quiet_app, Hq. destruct Hgen as [->|[t ->]]; reflexivity. }
    split; [reflexivity|]. split.
    { rewrite count_app, Hc. destruct Hgen as [->|[t ->]]; reflexivity. }
    split; [intros _; exact Hqs | discriminate].
  - unfold trace_of at 1. rewrite (run_chat_search_off h self0 u w Hs).
    exists [], (Out ("[STAGE]Generating response (offline)..." ++ LF) :: ts), [], w.
    unfold trace_of at 1. rewrite trace_react_loop_idle.
    cbn [fst app]. split; [reflexivity|].
    split; [reflexivity|]. split; [exact Hq|].
    split; [reflexivity|]. split.
    { rewrite count_cons. cbn [is_stream_call]. exact Hc. }
    split; [discriminate | intros _; split; reflexivity].
Qed.

Lemma quiet_no_validate (t : list obs) :
  quiet t = true -> forallb (fun o => negb (is_validate_call o)) t = true.
Proof.
  unfold quiet. induction t as [|o t IH]; simpl; [reflexivity|].
  intros H. apply andb_true_iff in H as [Ho Ht]. rewrite (IH Ht).
  destruct (is_validate_call o); [|reflexivity].
  rewrite orb_true_r in Ho. discriminate.
Qed.

Lemma quiet_no_search (t : list obs) :
  quiet t = true -> forallb (fun o => negb (is_search_call o)) t = true.
Proof.
  unfold quiet. induction t as [|o t IH]; simpl; [reflexivity|].
  intros H. apply andb_true_iff in H as [Ho Ht]. rewrite (IH Ht).
  destruct (is_search_call o); [discriminate | reflexivity].
Qed.


(** A validation of a turn is a validation of its retrieval loop. *)
Lemma chat_cut {W : Type} (h : handler W) (self : DevilAgent) (u : string) (w : W)
    (pre post : list obs) (today u' : string) (r : dict)
    (a : outcome (option SearchValidation)) :
  trace_of h (chat self u) w = (pre ++ Validated today u' r a :: post)%list ->
  exists opening ending qs w' pre' post',
    pre = (opening ++ pre')%list /\ post = (post' ++ ending)%list
    /\ quiet opening = true /\ quiet ending = true
    /\ trace_of h (react_loop (range max_iterations) u qs [] 0) w'
       = (pre' ++ Validated today u' r a :: post')%list.
Proof.
  intros Ht.
  destruct (chat_shape h self u w) as (opening & ending & qs & w' & Hs & Ho & He & _).
  rewrite Hs in Ht.
  apply (split_skip is_validate_call) in Ht;
    [| apply quiet_no_validate, Ho | reflexivity].
  destruct Ht as (pre' & -> & Ht).
  apply (split_tail is_validate_call) in Ht;
    [| apply quiet_no_validate, He | reflexivity].
  destruct Ht as (post' & Ht & ->).
  exists opening, ending, qs, w', pre', post'. repeat split; assumption.
Qed.

Lemma retrieve_cut {W : Type} (h : handler W) (u : string) (w : W)
    (pre post : list obs) (today u' : string) (r : dict)
    (a : outcome (option SearchValidation)) :
  trace_of h (chat_retrieve u) w = (pre ++ Validated today u' r a :: post)%list ->
  exists opening qs w' pre',
    pre = (opening ++ pre')%list /\ quiet opening = true
    /\ trace_of h (react_loop (range max_iterations) u qs [] 0) w'
       = (pre' ++ Validated today u' r a :: post)%list
    /\ result_of h (chat_retrieve u) w
       = result_of h (react_loop (range max_iterations) u qs [] 0) w'.
Proof.
  intros Ht.
  destruct (trace_chat_retrieve h u w) as (t0 & a0 & qs & w' & Hs & Hr & _).
  rewrite Hs in Ht.
  apply (split_skip is_validate_call) in Ht; [| reflexivity | reflexivity].
  destruct Ht as (pre' & -> & Ht).
  eexists _, qs, w', pre'. repeat split; assumption.
Qed.

(** ** The claims about the retrieval loop *)




(** C4: in a chat turn, after a validation that failed, returned no
    parsed result or is satisfied, no search and no validation follows; in
    the retrieval phase that validation is the last event and the map it
    saw is the map the loop returns. *)
Theorem validation_stop_ends_loop :
  forall (W : Type) (h : handler W) (w : W) (self : DevilAgent) (u : string)
         (pre post : list obs) (today u' : string) (r : dict)
         (a : outcome (option SearchValidation)),
    stops a = true ->
    (trace_of h (chat self u) w = (pre ++ Validated today u' r a :: post)%list ->
     quiet post = true)
    /\ (trace_of h (chat_retrieve u) w = (pre ++ Validated today u' r a :: post)%list ->
        post = [] /\ fst (result_of h (chat_retrieve u) w) = r).
Proof.
  intros W h w self u pre post today u' r a Hstop. split; intros Ht.
  - destruct (chat_cut h self u w _ _ _ _ _ _ Ht)
      as (opening & ending & qs & w' & pre' & post' & -> & -> & _ & He & Hl).
    destruct (react_loop_snapshot h _ _ _ _ _ _ _ _ _ _ _ _ Hl) as (_ & _ & Hs & _).
    destruct (Hs Hstop) as [-> _]. exact He.
  - destruct (retrieve_cut h u w _ _ _ _ _ _ Ht)
      as (opening & qs & w' & pre' & -> & _ & Hl & Hr).
    destruct (react_loop_snapshot h _ _ _ _ _ _ _ _ _ _ _ _ Hl) as (_ & _ & Hs & _).
    rewrite Hr. exact (Hs Hstop).
Qed.

(** C1, as the code has it: the map seen by a validation of a chat turn
    holds, for every query searched so far in the turn, the rendering of
    its most recent search, and nothing else; the keys of a map seen by a
    later validation start with the keys of the earlier one, in the same
    order. *)
Theorem accumulated_results_grow :
  forall (W : Type) (h : handler W) (w : W) (self : DevilAgent) (u : string)
         (pre post : list obs) (today u' : string) (r : dict)
         (a : outcome (option SearchValidation)),
    trace_of h (chat self u) w = (pre ++ Validated today u' r a :: post)%list ->
    (forall q, dict_get q r = latest q pre)
    /\ (forall pre2 post2 today2 u2 r2 a2,
          post = (pre2 ++ Validated today2 u2 r2 a2 :: post2)%list ->
          exists extra, keys r2 = (keys r ++ extra)%list).
Proof.
  intros W h w self u pre post today u' r a Ht.
  destruct (chat_cut h self u w _ _ _ _ _ _ Ht)
    as (opening & ending & qs & w' & pre' & post' & -> & -> & Ho & He & Hl).
  destruct (react_loop_snapshot h _ _ _ _ _ _ _ _ _ _ _ _ Hl) as (Hg & _ & _ & Hk).
  split.
  - intros q. rewrite (Hg q), latest_app.
    rewrite (latest_quiet q opening) by (apply quiet_no_search, Ho).
    destruct (latest q pre'); reflexivity.
  - intros pre2 post2 today2 u2 r2 a2 Hp.
    apply (split_tail is_validate_call) in Hp;
      [| apply quiet_no_validate, He | reflexivity].
    destruct Hp as (post3 & Hp & _). exact (Hk _ _ _ _ _ _ Hp).
Qed.

Lemma validation_stop_ends_loop_witness :
  stops satisfied = true
  /\ turn_partial
     = (firstn 9 turn_partial
        ++ Validated "2024-06-01" "x" results_partial satisfied
        :: skipn 10 turn_partial)%list
  /\ quiet (skipn 10 turn_partial) = true
  /\ trace_of (play world_partial) (chat_retrieve "x") (0, 0)
     = (firstn 9 turn_partial
        ++ Validated "2024-06-01" "x" results_partial satisfied :: [])%list
  /\ fst (result_of (play world_partial) (chat_retrieve "x") (0, 0)) = results_partial.
Proof.
  assert (H1 : trace_of (play world_partial) (chat agent0 "x") (0, 0)
               = (firstn 9 turn_partial
                  ++ Validated "2024-06-01" "x" results_partial satisfied
                  :: skipn 10 turn_partial)%list) by reflexivity.
  assert (H2 : trace_of (play world_partial) (chat_retrieve "x") (0, 0)
               = (firstn 9 turn_partial
                  ++ Validated "2024-06-01" "x" results_partial satisfied :: [])%list)
    by reflexivity.
  split; [reflexivity|]. split; [exact H1|]. split.
  - exact (proj1 (validation_stop_ends_loop _ (play world_partial) (0, 0) agent0 "x"
                    _ _ _ _ _ satisfied eq_refl) H1).
  - split; [exact H2|].
    exact (proj2 (proj2 (validation_stop_ends_loop _ (play world_partial) (0, 0) agent0 "x"
                           _ _ _ _ _ satisfied eq_refl) H2)).
Defined.

Lemma accumulated_results_grow_witness :
  turn_requery
  = (firstn 7 turn_requery
     ++ Validated "2024-06-01" "x" [("q", "[Search failed: timeout]")] (unsatisfied ["q"])
     :: skipn 8 turn_requery)%list
  /\ (forall q, dict_get q [("q", "[Search failed: timeout]")]
                = latest q (firstn 7 turn_requery))
  /\ skipn 8 turn_requery
     = (firstn 5 (skipn 8 turn_requery)
        ++ Validated "2024-06-01" "x" [("q", "[No results: q]")] (unsatisfied ["q"])
        :: skipn 14 turn_requery)%list
  /\ exists extra,
       keys [("q", "[No results: q]")] = (keys [("q", "[Search failed: timeout]")] ++ extra)%list.
Proof.
  assert (H1 : trace_of (play world_requery) (chat agent0 "x") (0, 0)
               = (firstn 7 turn_requery
                  ++ Validated "2024-06-01" "x" [("q", "[Search failed: timeout]")]
                       (unsatisfied ["q"])
                  :: skipn 8 turn_requery)%list) by reflexivity.
  assert (H2 : skipn 8 turn_requery
               = (firstn 5 (skipn 8 turn_requery)
                  ++ Validated "2024-06-01" "x" [("q", "[No results: q]")]
                       (unsatisfied ["q"])
                  :: skipn 14 turn_requery)%list) by reflexivity.
  split; [exact H1|].
  destruct (accumulated_results_grow _ (play world_requery) (0, 0) agent0 "x"
              _ _ _ _ _ _ H1) as [Hg Hk].
  split; [exact Hg|]. split; [exact H2|].
  exact (Hk _ _ _ _ _ _ H2).
Defined.

(** C1 as stated fails: the validator asks for the query of the first
    round again, the second search of it answers differently, and the
    entry seen after the first round is gone after the second. *)
Lemma accumulated_results_requery_counterexample :
  snapshots (trace_of (play world_requery) (chat agent0 "x") (0, 0))
  = [[("q", "[Search failed: timeout]")];
     [("q", "[No results: q]")];
     [("q", "[No results: q]")]]
  /\ In ("q", "[Search failed: timeout]") [("q", "[Search failed: timeout]")]
  /\ ~ In ("q", "[Search failed: timeout]") [("q", "[No results: q]")].
Proof.
  split; [reflexivity|]. split; [left; reflexivity|].
  intros [H|[]]. discriminate.
Qed.

(** ** The streaming phase of a turn *)

Lemma outputs_app (a b : list obs) : outputs (a ++ b) = (outputs a ++ outputs b)%list.
Proof.
  induction a as [|o a IH]; [reflexivity|].
  destruct o; simpl; rewrite IH; reflexivity.
Qed.

Lemma outputs_outs (l : list string) : outputs (map Out l) = l.
Proof. induction l as [|s l IH]; simpl; [reflexivity | now rewrite IH]. Qed.

(** A turn is its search phase followed by its streaming phase. *)
Lemma run_chat {W : Type} (h : handler W) (self : DevilAgent) (u : string) (w : W) :
  let self0 := with_history [] self in
  let found := result_of h (chat_search self0 u) w in
  let w1 := world_after h (chat_search self0 u) w in
  let answer := fst (h _ (LLM_astream (stream_messages self0 u (fst found))) w1) in
  let contents := filter truthy (fst answer) in
  trace_of h (chat self u) w
  = (trace_of h (chat_search self0 u) w
     ++ Streamed (stream_messages self0 u (fst found)) answer
     :: map Out (contents ++ closing (stream_agent self0 u) (snd found) (snd answer)))%list
  /\ result_of h (chat self u) w
     = match snd answer with
       | Some _ => stream_agent self0 u
       | None =>
           with_history
             (history (stream_agent self0 u)
              ++ [AIMessage (String.concat "" contents)])%list
             (stream_agent self0 u)
       end.
Proof.
  intros self0 found w1 answer contents. unfold chat. fold self0.
  rewrite trace_bind, result_bind. fold found w1.
  unfold trace_of at 2, result_of at 1.
  rewrite run_chat_stream. split; reflexivity.
Qed.

Lemma chat_search_no_stream {W : Type} (h : handler W) (self : DevilAgent)
    (u : string) (w : W) :
  count is_stream_call (trace_of h (chat_search self u) w) = 0.
Proof.
  destruct (use_web_search self) eqn:Hs.
  - destruct (run_chat_search_on h self u w Hs) as (gen & -> & Hgen & _).
    destruct (trace_chat_retrieve h u w) as (today & a & qs & w' & -> & _).
    destruct (react_loop_count h max_iterations 0 u qs [] 0 w') as (_ & _ & _ & Hst & _).
    fold (range max_iterations) in Hst.
    rewrite !count_app, Hst. destruct Hgen as [->|[t ->]]; reflexivity.
  - unfold trace_of. rewrite (run_chat_search_off h self u w Hs). reflexivity.
Qed.

(** C6: a turn makes one stream call, after its search phase; when the
    stream raises with reason [e], the turn yields the chunks received so
    far and then, as its last fragment, the one error fragment
    "\n[Error: e]" that carries the reason, returns, and leaves only the
    user message in the history (odd length); when the stream completes,
    the history holds the user message and the assistant message (even
    length). *)
Theorem stream_failure_contained :
  forall (W : Type) (h : handler W) (w : W) (self : DevilAgent) (u : string),
    let self0 := with_history [] self in
    let found := result_of h (chat_search self0 u) w in
    let w1 := world_after h (chat_search self0 u) w in
    let answer := fst (h _ (LLM_astream (stream_messages self0 u (fst found))) w1) in
    let contents := filter truthy (fst answer) in
    count is_stream_call (trace_of h (chat_search self0 u) w) = 0
    /\ match snd answer with
       | Some e =>
           trace_of h (chat self u) w
           = (trace_of h (chat_search self0 u) w
              ++ Streamed (stream_messages self0 u (fst found)) answer
              :: map Out (contents ++ [(LF ++ "[Error: " ++ e ++ "]")%string]))%list
           /\ last (outputs (trace_of h (chat self u) w)) "" = LF ++ "[Error: " ++ e ++ "]"
           /\ contains (last (outputs (trace_of h (chat self u) w)) "") e = true
           /\ history (result_of h (chat self u) w) = [HumanMessage u]
           /\ Nat.odd (length (history (result_of h (chat self u) w))) = true
       | None =>
           trace_of h (chat self u) w
           = (trace_of h (chat_search self0 u) w
              ++ Streamed (stream_messages self0 u (fst found)) answer
              :: map Out (contents ++ footer (stream_agent self0 u) (snd found)))%list
           /\ history (result_of h (chat self u) w)
              = [HumanMessage u; AIMessage (String.concat "" contents)]
           /\ Nat.even (length (history (result_of h (chat self u) w))) = true
       end.
Proof.
  intros W h w self u self0 found w1 answer contents.
  destruct (run_chat h self u w) as [Ht Hr]. cbv zeta in Ht, Hr.
  fold self0 found w1 answer contents in Ht, Hr.
  split; [apply chat_search_no_stream|].
  rewrite Hr, Ht. unfold closing.
  destruct (snd answer) as [e|].
  - assert (Hlast : last (outputs
                (trace_of h (chat_search self0 u) w
                 ++ Streamed (stream_messages self0 u (fst found)) answer
                 :: map Out (contents ++ [error_fragment e]))%list) ""
              = LF ++ "[Error: " ++ e ++ "]").
    { rewrite outputs_app. cbn [outputs]. rewrite outputs_outs, app_assoc.
      apply last_last. }
    split; [reflexivity|]. split; [exact Hlast|]. split.
    + rewrite Hlast. exact (contains_app (LF ++ "[Error: ") e "]").
    + rewrite stream_agent_history. split; reflexivity.
  - split; [reflexivity|]. cbn [history with_history].
    rewrite stream_agent_history. split; reflexivity.
Qed.

Lemma stream_failure_contained_witness :
  outputs (trace_of (play world_broken) (chat agent0 "def f(): pass") (0, 0))
  = [("[STAGE]Extracting search queries..." ++ LF)%string;
     ("[STAGE]Searching: a" ++ LF)%string;
     ("[STAGE]Found 1 results, validating..." ++ LF)%string;
     ("[STAGE]Generating response..." ++ LF)%string;
     "Hel";
     (LF ++ "[Error: connection reset]")%string]
  /\ last (outputs (trace_of (play world_broken) (chat agent0 "def f(): pass") (0, 0))) ""
     = LF ++ "[Error: connection reset]"
  /\ history (result_of (play world_broken) (chat agent0 "def f(): pass") (0, 0))
     = [HumanMessage "def f(): pass"]
  /\ history (result_of (play world_partial) (chat agent0 "x") (0, 0))
     = [HumanMessage "x"; AIMessage "Hello"].
Proof.
  pose proof (stream_failure_contained _ (play world_broken) (0, 0) agent0 "def f(): pass")
    as H.
  cbv zeta in H. destruct H as [_ H].
  change (snd (fst (play world_broken _
            (LLM_astream
               (stream_messages (with_history [] agent0) "def f(): pass"
                  (fst (result_of (play world_broken)
                          (chat_search (with_history [] agent0) "def f(): pass") (0, 0)))))
            (world_after (play world_broken)
               (chat_search (with_history [] agent0) "def f(): pass") (0, 0)))))
    with (Some "connection reset") in H.
  destruct H as (Ht & Hl & _ & Hh & _).
  pose proof (stream_failure_contained _ (play world_partial) (0, 0) agent0 "x") as G.
  cbv zeta in G. destruct G as [_ G].
  change (snd (fst (play world_partial _
            (LLM_astream
               (stream_messages (with_history [] agent0) "x"
                  (fst (result_of (play world_partial)
                          (chat_search (with_history [] agent0) "x") (0, 0)))))
            (world_after (play world_partial)
               (chat_search (with_history [] agent0) "x") (0, 0)))))
    with (@None string) in G.
  destruct G as (_ & Gh & _).
  split; [exact (f_equal outputs Ht)|]. split; [exact Hl|]. split; [exact Hh | exact Gh].
Defined.

(** C7: with web search off, a turn yields the offline stage fragment,
    makes the stream call with no search context, and makes no extraction,
    search or validation call; when the stream completes, the offline
    notice is yielded once, after the chunks, and nothing follows it. *)
Theorem offline_turn_skips_search :
  forall (W : Type) (h : handler W) (w : W) (self : DevilAgent) (u : string),
    use_web_search self = false ->
    exists chunks failure,
      trace_of h (chat self u) w
      = Out ("[STAGE]Generating response (offline)..." ++ LF)
        :: Streamed (stream_messages (with_history [] self) u "") (chunks, failure)
        :: map Out (filter truthy chunks
                    ++ match failure with
                       | Some e => [error_fragment e]
                       | None => [OFFLINE_NOTICE]
                       end)%list
      /\ count is_retrieval_call (trace_of h (chat self u) w) = 0
      /\ match failure with
         | Some _ => True
         | None =>
             outputs (trace_of h (chat self u) w)
             = (("[STAGE]Generating response (offline)..." ++ LF)%string
                :: filter truthy chunks ++ [OFFLINE_NOTICE])%list
         end.
Proof.
  intros W h w self u Hs.
  destruct (run_chat h self u w) as [Ht _]. cbv zeta in Ht.
  set (self0 := with_history [] self) in *.
  assert (Hs0 : use_web_search self0 = false) by exact Hs.
  unfold trace_of at 2, result_of, world_after in Ht.
  rewrite (run_chat_search_off h self0 u w Hs0) in Ht. cbn [fst snd app] in Ht.
  destruct (fst (h _ (LLM_astream (stream_messages self0 u "")) w))
    as [chunks failure] eqn:Ha.
  cbn [fst snd] in Ht.
  assert (Hc : closing (stream_agent self0 u) [] failure
               = match failure with
                 | Some e => [error_fragment e]
                 | None => [OFFLINE_NOTICE]
                 end).
  { unfold closing, footer. rewrite stream_agent_search, Hs0. reflexivity. }
  rewrite Hc in Ht. exists chunks, failure. rewrite Ht.
  split; [reflexivity|]. split.
  - rewrite !count_cons, count_outs by reflexivity. reflexivity.
  - destruct failure; [exact I|].
    cbn [outputs]. now rewrite outputs_outs.
Qed.

Lemma offline_turn_skips_search_witness :
  use_web_search (set_search false agent0) = false
  /\ count is_retrieval_call
       (trace_of (play world_partial) (chat (set_search false agent0) "x") (0, 0)) = 0
  /\ outputs (trace_of (play world_partial) (chat (set_search false agent0) "x") (0, 0))
     = [("[STAGE]Generating response (offline)..." ++ LF)%string; "Hel"; "lo";
        OFFLINE_NOTICE].
Proof.
  split; [reflexivity|].
  destruct (offline_turn_skips_search _ (play world_partial) (0, 0)
              (set_search false agent0) "x" eq_refl)
    as (chunks & failure & _ & Hc & _).
  split; [exact Hc | reflexivity].
Defined.

(** ** Splitting a line at the source marker *)

Lemma split_go_nonempty (sep : string) (s : string) :
  forall skip cur, split_go sep skip cur s <> [].
Proof.
  induction s as [|c s IH]; intros skip cur; simpl; [discriminate|].
  destruct skip; [|apply IH].
  destruct (startswith (String c s) sep); [discriminate | apply IH].
Qed.

(** The characters of a matched separator are passed over. *)
Lemma split_go_skip (sep a b cur : string) :
  split_go sep (String.length a) cur (a ++ b) = split_go sep 0 cur b.
Proof. induction a as [|c a IH]; simpl; [reflexivity | exact IH]. Qed.

(** A string without the separator is one piece. *)
Lemma split_go_clean (sep s : string) :
  forall cur, contains s sep = false -> split_go sep 0 cur s = [cur ++ s].
Proof.
  induction s as [|c s IH]; intros cur H; simpl.
  - now rewrite sapp_nil_r.
  - simpl in H. apply orb_false_iff in H as [H1 H2].
    simpl in H1. rewrite H1, (IH _ H2), sapp_assoc. reflexivity.
Qed.

Lemma split_go_marker (cur r : string) :
  split_go MARKER 0 cur (MARKER ++ r) = cur :: split_go MARKER 0 "" r.
Proof.
  change (MARKER ++ r) with (String "S" ("ource: " ++ r)).
  unfold split_go at 1; fold split_go.
  change (String "S" ("ource: " ++ r)) with (MARKER ++ r).
  rewrite startswith_app.
  exact (f_equal (cons cur) (split_go_skip MARKER "ource: " r "")).
Qed.

(** The marker does not overlap itself: an occurrence that starts before
    another one ends before it. *)
Lemma marker_border_free (pre rest r : string) :
  pre ++ MARKER ++ rest = MARKER ++ r ->
  pre = "" \/ exists pre', pre = MARKER ++ pre'.
Proof.
  intros H. unfold MARKER in *.
  do 8 (destruct pre as [|? pre];
          [first [left; reflexivity | simpl in H; discriminate H] |];
        simpl in H; injection H as -> H).
  right. exists pre. reflexivity.
Qed.

Lemma last_split_marker (rest : string) :
  contains rest MARKER = false ->
  forall n pre cur,
    String.length pre <= n ->
    last (split_go MARKER 0 cur (pre ++ MARKER ++ rest)) "" = rest.
Proof.
  intros Hrest. induction n as [|n IH]; intros pre cur Hn.
  - destruct pre; [|simpl in Hn; lia].
    change ("" ++ MARKER ++ rest) with (MARKER ++ rest).
    rewrite split_go_marker, (split_go_clean _ _ _ Hrest). reflexivity.
  - destruct pre as [|c pre].
    + change ("" ++ MARKER ++ rest) with (MARKER ++ rest).
      rewrite split_go_marker, (split_go_clean _ _ _ Hrest). reflexivity.
    + destruct (startswith (String c pre ++ MARKER ++ rest) MARKER) eqn:E.
      * destruct (startswith_inv _ _ E) as [r Hr].
        destruct (marker_border_free _ _ _ Hr) as [Hp|[pre' Hp]]; [discriminate|].
        rewrite Hp, sapp_assoc, split_go_marker.
        assert (Hl : String.length pre' <= n).
        { apply (f_equal String.length) in Hp. rewrite slength_app in Hp.
          simpl in Hp, Hn. lia. }
        specialize (IH pre' "" Hl).
        destruct (split_go MARKER 0 "" (pre' ++ MARKER ++ rest)) as [|x l] eqn:Es.
        { exfalso. exact (split_go_nonempty _ _ _ _ Es). }
        exact IH.
      * change (String c pre ++ MARKER ++ rest) with (String c (pre ++ MARKER ++ rest)) in *.
        unfold split_go at 1; fold split_go. rewrite E.
        apply IH. simpl in Hn. lia.
Qed.

(** The citation scan of one line: a line without the marker adds
    nothing; otherwise the text after the last marker, stripped, is added
    when it is not empty and starts with http. *)
Lemma scan_line_clean (acc : list string) (line : string) :
  contains line MARKER = false -> scan_line acc line = acc.
Proof. intros H. unfold scan_line. fold MARKER. now rewrite H. Qed.

Lemma scan_line_marker (acc : list string) (pre rest : string) :
  contains rest MARKER = false ->
  scan_line acc (pre ++ MARKER ++ rest)
  = if truthy (strip rest) && startswith (strip rest) "http"
    then (acc ++ [strip rest])%list
    else acc.
Proof.
  intros H. unfold scan_line. fold MARKER.
  rewrite contains_app. unfold split.
  now rewrite (last_split_marker rest H (String.length pre) pre "" (le_n _)).
Qed.

(** ** Source URLs and the reference list *)

Lemma scan_line_acc (acc : list string) (line : string) :
  scan_line acc line = (acc ++ scan_line [] line)%list.
Proof.
  unfold scan_line. destruct (contains line "Source: "); [|now rewrite app_nil_r].
  destruct (truthy _ && startswith _ "http"); [reflexivity | now rewrite app_nil_r].
Qed.

Lemma fold_scan_line (lines : list string) :
  forall acc, fold_left scan_line lines acc = (acc ++ flat_map (scan_line []) lines)%list.
Proof.
  induction lines as [|l lines IH]; intros acc; simpl.
  - now rewrite app_nil_r.
  - rewrite IH, (scan_line_acc acc l), app_assoc. reflexivity.
Qed.

(** The sources are found result by result, in the order of the map, and
    line by line within a result. *)
Lemma collect_sources_flat (all_results : dict) :
  collect_sources all_results
  = flat_map (fun qr => flat_map (scan_line []) (split (snd qr) LF)) all_results.
Proof.
  unfold collect_sources.
  enough (H : forall acc,
            fold_left (fun a qr => fold_left scan_line (split (snd qr) LF) a) all_results acc
            = (acc ++ flat_map (fun qr => flat_map (scan_line []) (split (snd qr) LF))
                       all_results)%list) by apply (H []).
  induction all_results as [|qr d IH]; intros acc; simpl.
  - now rewrite app_nil_r.
  - rewrite IH, fold_scan_line, app_assoc. reflexivity.
Qed.

Lemma footer_references (self : DevilAgent) (sources : list string) :
  use_web_search self = true -> sources <> [] ->
  footer self sources
  = REFERENCES_HEADER
    :: map reference_line
         (combine (seq 1 (Nat.min 5 (length sources))) (firstn 5 sources)).
Proof.
  intros Hs Hne. unfold footer, enumerate1. rewrite Hs. simpl negb. cbv iota.
  destruct sources as [|s sources]; [contradiction|].
  now rewrite length_firstn.
Qed.

(** C5, as the code has it: the sources of a turn are collected from the
    accumulated map entry by entry in insertion order and line by line;
    a line without the marker gives nothing, a line with it gives the
    stripped text after its last marker when that text is not empty and
    starts with http; and when some source was collected and the stream
    completes, the turn ends with the references header followed by the
    first min(5, count) sources, numbered from 1, in that order. *)
Theorem sources_and_references :
  (forall all_results,
      collect_sources all_results
      = flat_map (fun qr => flat_map (scan_line []) (split (snd qr) LF)) all_results)
  /\ (forall line, contains line MARKER = false -> scan_line [] line = [])
  /\ (forall pre rest,
        contains rest MARKER = false ->
        scan_line [] (pre ++ MARKER ++ rest)
        = if truthy (strip rest) && startswith (strip rest) "http"
          then [strip rest] else [])
  /\ (forall (W : Type) (h : handler W) (w : W) (self : DevilAgent) (u : string),
        use_web_search self = true ->
        snd (result_of h (chat_search (with_history [] self) u) w)
        = collect_sources (fst (result_of h (chat_retrieve u) w)))
  /\ (forall (W : Type) (h : handler W) (w : W) (self : DevilAgent) (u : string),
        let self0 := with_history [] self in
        let found := result_of h (chat_search self0 u) w in
        let w1 := world_after h (chat_search self0 u) w in
        let answer := fst (h _ (LLM_astream (stream_messages self0 u (fst found))) w1) in
        use_web_search self = true -> snd found <> [] -> snd answer = None ->
        outputs (trace_of h (chat self u) w)
        = (outputs (trace_of h (chat_search self0 u) w)
           ++ filter truthy (fst answer)
           ++ REFERENCES_HEADER
              :: map reference_line
                   (combine (seq 1 (Nat.min 5 (length (snd found))))
                            (firstn 5 (snd found))))%list).
Proof.
  split; [exact collect_sources_flat|].
  split; [intros line H; exact (scan_line_clean [] line H)|].
  split; [intros pre rest H; exact (scan_line_marker [] pre rest H)|].
  split.
  - intros W h w self u Hs.
    destruct (run_chat_search_on h (with_history [] self) u w Hs) as (gen & _ & _ & H & _).
    exact H.
  - intros W h w self u self0 found w1 answer Hs Hne Hok.
    destruct (run_chat h self u w) as [Ht _]. cbv zeta in Ht.
    fold self0 found w1 answer in Ht.
    rewrite Ht, outputs_app. cbn [outputs]. rewrite outputs_outs.
    unfold closing. rewrite Hok.
    rewrite footer_references; [reflexivity | | exact Hne].
    rewrite stream_agent_search. exact Hs.
Qed.

Lemma sources_and_references_witness :
  contains "" MARKER = false
  /\ scan_line [] ("  " ++ MARKER ++ "https://example.org/a")
     = ["https://example.org/a"]
  /\ use_web_search agent0 = true
  /\ snd (result_of (play world_partial) (chat_search (with_history [] agent0) "x") (0, 0))
     = ["https://example.org/a"]
  /\ outputs (trace_of (play world_partial) (chat agent0 "x") (0, 0))
     = (outputs (trace_of (play world_partial) (chat_search (with_history [] agent0) "x")
                   (0, 0))
        ++ ["Hel"; "lo"; REFERENCES_HEADER;
            ("[1]: https://example.org/a" ++ LF)%string])%list.
Proof.
  destruct sources_and_references as (_ & _ & H3 & H4 & H5).
  split; [reflexivity|]. split.
  { exact (H3 "  " "https://example.org/a" eq_refl). }
  split; [reflexivity|]. split.
  { rewrite (H4 _ (play world_partial) (0, 0) agent0 "x" eq_refl). reflexivity. }
  assert (Hne : snd (result_of (play world_partial)
                       (chat_search (with_history [] agent0) "x") (0, 0)) <> [])
    by discriminate.
  exact (H5 _ (play world_partial) (0, 0) agent0 "x" eq_refl Hne eq_refl).
Defined.

(** C5 as stated fails: the URL of a search hit that does not start with
    http follows the marker in the result text and is not collected. *)
Lemma sources_non_http_counterexample :
  render_search "q" (Returned [hit "Readme" "A file" "ftp://ftp.example.org/pub/readme.txt"])
  = "- Readme: A file..." ++ LF ++ "  Source: ftp://ftp.example.org/pub/readme.txt"
  /\ contains ("- Readme: A file..." ++ LF ++ "  Source: ftp://ftp.example.org/pub/readme.txt")
       ("Source: " ++ "ftp://ftp.example.org/pub/readme.txt") = true
  /\ collect_sources
       [("q", "- Readme: A file..." ++ LF
              ++ "  Source: ftp://ftp.example.org/pub/readme.txt")] = [].
Proof. repeat split; reflexivity. Qed.

Example sources_last_marker :
  collect_sources [("q", "  Source: http://a.example Source: http://b.example")]
  = ["http://b.example"].
Proof. reflexivity. Qed.

(** After the toggles have cleared the active skill, a devil-mode turn on
    a non-empty input classifies the input again. *)
Lemma chat_reclassifies {W : Type} (h : handler W) (w : W) (self : DevilAgent) (u : string) :
  devil_mode self = true -> active_skill self = None -> truthy u = true ->
  active_skill (result_of h (chat self u) w)
  = _load_skill_by_name self (_detect_skill u).
Proof.
  intros Hd Ha Hu.
  destruct (run_chat h self u w) as [_ Hr]. cbv zeta in Hr. rewrite Hr.
  assert (Hs : active_skill (stream_agent (with_history [] self) u)
               = _load_skill_by_name self (_detect_skill u)).
  { unfold stream_agent, _build_prompt. cbn [devil_mode with_history active_skill].
    rewrite Hd, Ha, Hu. reflexivity. }
  destruct (snd (fst (h _ _ _))); exact Hs.
Qed.

(** * Further properties *)

(** ** The agent across a turn *)

(** X1: a turn leaves the mode, the search flag and the registry as they
    were, whatever the outside world answers. *)
Theorem chat_keeps_settings :
  forall (W : Type) (h : handler W) (w : W) (self : DevilAgent) (u : string),
    devil_mode (result_of h (chat self u) w) = devil_mode self
    /\ use_web_search (result_of h (chat self u) w) = use_web_search self
    /\ skills_metadata (result_of h (chat self u) w) = skills_metadata self.
Proof.
  intros W h w self u.
  destruct (run_chat h self u w) as [_ Hr]. cbv zeta in Hr. rewrite Hr.
  unfold stream_agent.
  destruct (build_prompt_frame
              (with_history (history (with_history [] self) ++ [HumanMessage u])%list
                 (with_history [] self)) u) as (_ & Hs & Hd & Hk).
  destruct (snd (fst (h _ _ _))); cbn [devil_mode use_web_search skills_metadata with_history];
    rewrite ?Hs, ?Hd, ?Hk; repeat split.
Qed.

(** X2: a turn sets the active skill only in devil mode, with no skill
    active and a non-empty input, and then to the registry entry of the
    detected skill name; in every other case the active skill stays, so a
    skill once active is kept whatever the later inputs are. *)
Theorem chat_active_skill :
  forall (W : Type) (h : handler W) (w : W) (self : DevilAgent) (u : string),
    active_skill (result_of h (chat self u) w)
    = match active_skill self with
      | Some s => Some s
      | None =>
          if devil_mode self && truthy u
          then _load_skill_by_name self (_detect_skill u)
          else None
      end.
Proof.
  intros W h w self u.
  destruct (run_chat h self u w) as [_ Hr]. cbv zeta in Hr. rewrite Hr.
  assert (Hs : active_skill (stream_agent (with_history [] self) u)
               = match active_skill self with
                 | Some s => Some s
                 | None =>
                     if devil_mode self && truthy u
                     then _load_skill_by_name self (_detect_skill u)
                     else None
                 end).
  { clear Hr. unfold stream_agent, _build_prompt. simpl.
    destruct (devil_mode self); simpl.
    - destruct (active_skill self) eqn:Ha; simpl; [exact Ha|].
      destruct (truthy u); simpl; [reflexivity | exact Ha].
    - destruct (active_skill self); reflexivity. }
  destruct (snd (fst (h _ _ _))); exact Hs.
Qed.

(** X3: [_load_skill_by_name] gives the first skill of the registry with
    the name asked for, and [None] exactly when no skill has that name. *)
Theorem load_skill_by_name_first :
  forall (self : DevilAgent) (n : string),
    (forall s, _load_skill_by_name self n = Some s ->
               exists before after,
                 skills_metadata self = (before ++ s :: after)%list
                 /\ name s = n
                 /\ forall x, In x before -> name x <> n)
    /\ (_load_skill_by_name self n = None <->
        forall x, In x (skills_metadata self) -> name x <> n).
Proof.
  intros self n. unfold _load_skill_by_name.
  induction (skills_metadata self) as [|x l [IH1 IH2]]; simpl.
  - split; [discriminate|]. split; [intros _ y [] | reflexivity].
  - destruct (String.eqb_spec (name x) n) as [E|E].
    + split.
      * intros s H. inversion H; subst s. exists [], l.
        split; [reflexivity|]. split; [exact E|]. intros y [].
      * split; [discriminate|]. intros H. exfalso. exact (H x (or_introl eq_refl) E).
    + split.
      * intros s H. destruct (IH1 s H) as (b & a & -> & Hn & Hb).
        exists (x :: b), a. repeat split; auto.
        intros y [<-|Hy]; [exact E | exact (Hb y Hy)].
      * rewrite IH2. split.
        -- intros H y [<-|Hy]; [exact E | exact (H y Hy)].
        -- intros H y Hy. apply H. right. exact Hy.
Qed.



(** X5: with web search on and no query extracted (the extraction failed,
    parsed to nothing or gave an empty list), a turn makes no search and
    no validation, yields no generation stage fragment, streams without
    search context, and closes without references and without the offline
    notice. *)
Theorem chat_without_queries :
  forall (W : Type) (h : handler W) (w : W) (self : DevilAgent) (u : string),
    use_web_search self = true ->
    result_of h (_extract_search_queries u) w = [] ->
    exists today a chunks failure,
      trace_of h (chat self u) w
      = Out ("[STAGE]Extracting search queries..." ++ LF)
        :: Clock today :: Extracted today u a
        :: Streamed (stream_messages (with_history [] self) u "") (chunks, failure)
        :: map Out (filter truthy chunks
                    ++ match failure with
                       | Some e => [error_fragment e]
                       | None => []
                       end)%list.
Proof.
  intros W h w self u Hs Hq.
  destruct (run_chat h self u w) as [Ht _]. cbv zeta in Ht.
  set (self0 := with_history [] self) in *.
  destruct (run_chat_search_on h self0 u w Hs) as (gen & Htr & _ & Hsrc & Hnone).
  destruct (trace_chat_retrieve h u w) as (today & a & qs & w' & Hret & Hres & Hqs).
  rewrite Hq in Hqs. subst qs.
  assert (Hl1 : trace_of h (react_loop (range max_iterations) u [] [] 0) w' = []).
  { unfold trace_of. now rewrite trace_react_loop_idle. }
  assert (Hl2 : result_of h (react_loop (range max_iterations) u [] [] 0) w' = ([], 0)).
  { unfold result_of. now rewrite trace_react_loop_idle. }
  rewrite Hl1 in Hret. rewrite Hl2 in Hres.
  assert (Hempty : fst (result_of h (chat_retrieve u) w) = []) by now rewrite Hres.
  specialize (Hnone Hempty).
  assert (Hgen : gen = []).
  { clear Ht. unfold chat_search in Htr.
    assert (Hs0 : use_web_search self0 = true) by exact Hs. rewrite Hs0 in Htr.
    rewrite trace_bind, Hempty in Htr. autorewrite with run_eqs in Htr.
    apply app_inv_head in Htr. symmetry. exact Htr. }
  subst gen. rewrite Htr, Hret, Hnone in Ht. cbn [fst snd] in Ht.
  destruct (fst (h _ (LLM_astream (stream_messages self0 u "")) _))
    as [chunks failure] eqn:Ha. cbn [fst snd] in Ht.
  exists today, a, chunks, failure. rewrite Ht. rewrite app_nil_r. cbn [app].
  unfold closing, footer. rewrite stream_agent_search.
  assert (Hs0 : use_web_search self0 = true) by exact Hs. rewrite Hs0.
  destruct failure; reflexivity.
Qed.

Lemma chat_without_queries_witness :
  use_web_search agent0 = true
  /\ result_of (play world_no_queries) (_extract_search_queries "x") (0, 0) = []
  /\ outputs (trace_of (play world_no_queries) (chat agent0 "x") (0, 0))
     = [("[STAGE]Extracting search queries..." ++ LF)%string; "Hel"; "lo"]
  /\ exists today a chunks failure,
       trace_of (play world_no_queries) (chat agent0 "x") (0, 0)
       = Out ("[STAGE]Extracting search queries..." ++ LF)
         :: Clock today :: Extracted today "x" a
         :: Streamed (stream_messages (with_history [] agent0) "x" "") (chunks, failure)
         :: map Out (filter truthy chunks
                     ++ match failure with
                        | Some e => [error_fragment e]
                        | None => []
                        end)%list.
Proof.
  split; [reflexivity|]. split; [reflexivity|]. split; [reflexivity|].
  exact (chat_without_queries _ (play world_no_queries) (0, 0) agent0 "x" eq_refl eq_refl).
Defined.

(** ** Progress fragments *)

Lemma stage_searched (answers : list (string * outcome (list SearchHit))) :
  forallb is_stage (map searched answers) = true.
Proof. induction answers as [|x l IH]; [reflexivity | exact IH]. Qed.

Lemma stage_react_loop {W : Type} (h : handler W) (indices : list nat) :
  forall (u : string) (qs : list string) (d : dict) (n : nat) (w : W),
    forallb is_stage (trace_of h (react_loop indices u qs d n) w) = true.
Proof.
  induction indices as [|i indices IH]; intros u qs d n w.
  { unfold trace_of. now rewrite trace_react_loop_nil. }
  destruct qs as [|q qs].
  { unfold trace_of. now rewrite trace_react_loop_idle. }
  destruct (trace_react_loop_round h i indices u q qs d n w)
    as (answers & today & a & w3 & _ & Htr & _).
  cbv zeta in Htr. rewrite Htr.
  rewrite forallb_app. cbn [forallb]. rewrite forallb_app, stage_searched.
  unfold round_tail. destruct (stops a); [reflexivity|].
  rewrite forallb_app, IH.
  destruct (match a with Returned (Some v) => new_queries v | _ => [] end); reflexivity.
Qed.

Lemma outputs_stage (t : list obs) :
  forallb is_stage t = true ->
  forallb (fun s => startswith s "[STAGE]") (outputs t) = true.
Proof.
  induction t as [|o t IH]; [reflexivity|]. cbn [forallb]. intros H.
  apply andb_true_iff in H as [Ho Ht]. destruct o; cbn [outputs]; auto.
  cbn [forallb]. cbn [is_stage] in Ho. now rewrite Ho, (IH Ht).
Qed.

(** X6: every fragment a turn yields before its stream call starts with
    the marker [STAGE], with web search on or off and whatever the world
    answers; the chunks of the stream come after all of them. *)
Theorem chat_stage_fragments_first :
  forall (W : Type) (h : handler W) (w : W) (self : DevilAgent) (u : string),
    exists before answer messages after,
      trace_of h (chat self u) w = (before ++ Streamed messages answer :: after)%list
      /\ forallb (fun s => startswith s "[STAGE]") (outputs before) = true
      /\ count is_stream_call before = 0
      /\ outputs after
         = (filter truthy (fst answer)
            ++ closing (stream_agent (with_history [] self) u)
                 (snd (result_of h (chat_search (with_history [] self) u) w))
                 (snd answer))%list.
Proof.
  intros W h w self u.
  destruct (run_chat h self u w) as [Ht _]. cbv zeta in Ht.
  set (self0 := with_history [] self) in *.
  eexists _, _, _, _. split; [exact Ht|]. split; [|split].
  - apply outputs_stage.
    destruct (use_web_search self0) eqn:Hs.
    + destruct (run_chat_search_on h self0 u w Hs) as (gen & -> & Hgen & _).
      destruct (trace_chat_retrieve h u w) as (today & a & qs & w' & -> & _).
      rewrite !forallb_app, stage_react_loop.
      destruct Hgen as [->|[t ->]]; reflexivity.
    + unfold trace_of. rewrite (run_chat_search_off h self0 u w Hs). reflexivity.
  - apply chat_search_no_stream.
  - apply outputs_outs.
Qed.

(** ** Toggles and reset *)

(** X7: [clear] empties the history and the active skill and keeps the
    mode, the search flag and the registry; the three operations
    [set_mode], [set_search] and [clear] can be applied in any order with
    the same result, and of two calls of the same toggle the last one
    decides. *)
Theorem toggles_compose :
  forall (d d' e e' : bool) (self : DevilAgent),
    (history (clear self) = []
     /\ active_skill (clear self) = None
     /\ devil_mode (clear self) = devil_mode self
     /\ use_web_search (clear self) = use_web_search self
     /\ skills_metadata (clear self) = skills_metadata self)
    /\ set_mode d (set_search e self) = set_search e (set_mode d self)
    /\ set_mode d (clear self) = clear (set_mode d self)
    /\ set_search e (clear self) = clear (set_search e self)
    /\ set_mode d (set_mode d' self) = set_mode d self
    /\ set_search e (set_search e' self) = set_search e self
    /\ clear (clear self) = clear self.
Proof. intros. repeat split. Qed.

(** ** Search with repeated queries *)

Lemma keys_of_In (pairs : list (string * string)) (q : string) :
  In q (keys (dict_of pairs)) <-> In q (map fst pairs).
Proof.
  unfold dict_of. rewrite keys_update_In. simpl. unfold keys. tauto.
Qed.

(** X8: for any list of queries, repeated or not, [multi_search] returns
    a dict without repeated keys whose keys are exactly the queries asked;
    it has at most as many entries as there are queries, and the entry of
    a query asked several times is the rendering of its last search. *)
Theorem multi_search_repeated_queries :
  forall (W : Type) (h : handler W) (w : W) (queries : list string),
    NoDup (keys (result_of h (multi_search queries) w))
    /\ (forall q, In q (keys (result_of h (multi_search queries) w)) <-> In q queries)
    /\ length (result_of h (multi_search queries) w) <= length queries
    /\ (forall q, dict_get q (result_of h (multi_search queries) w)
                  = latest q (trace_of h (multi_search queries) w))
    /\ count is_search_call (trace_of h (multi_search queries) w) = length queries.
Proof.
  intros W h w queries.
  rewrite result_multi_search, trace_multi_search.
  set (answers := fst (search_answers h queries w)).
  assert (Hq : map fst (map rendered answers) = queries).
  { rewrite map_map. apply search_answers_queries. }
  assert (Hin : forall q, In q (keys (dict_of (map rendered answers))) <-> In q queries).
  { intros q. rewrite keys_of_In, Hq. reflexivity. }
  split; [apply keys_of_NoDup|]. split; [exact Hin|]. split; [|split].
  - replace (length (dict_of (map rendered answers)))
      with (length (keys (dict_of (map rendered answers))))
      by (unfold keys; apply length_map).
    apply NoDup_incl_length; [apply keys_of_NoDup|].
    intros q Hk. apply Hin. exact Hk.
  - intros q. now rewrite dict_get_of, latest_searched.
  - assert (Hl : length queries = length answers).
    { rewrite <- (search_answers_queries h queries w). apply length_map. }
    rewrite Hl. unfold count. clear Hq Hin Hl.
    induction answers as [|x l IH]; [reflexivity|]. simpl. now rewrite IH.
Qed.

Example multi_search_twice :
  result_of (play world_requery) (multi_search ["q"; "q"]) (0, 0)
  = [("q", "[No results: q]")].
Proof. reflexivity. Qed.

(** ** From search hits to sources *)

Lemma contains_LF_cons (c : ascii) (s : string) :
  contains (String c s) LF = Ascii.eqb (ascii_of_nat 10) c || contains s LF.
Proof.
  change (contains (String c s) LF) with (startswith (String c s) LF || contains s LF).
  f_equal. unfold LF. cbn [startswith].
  destruct (Ascii.eqb (ascii_of_nat 10) c); reflexivity.
Qed.

Lemma contains_LF_app (a b : string) :
  contains (a ++ b) LF = contains a LF || contains b LF.
Proof.
  induction a as [|c a IH].
  - reflexivity.
  - change (String c a ++ b) with (String c (a ++ b)).
    now rewrite !contains_LF_cons, IH, orb_assoc.
Qed.

Lemma split_go_LF_sep (a b cur : string) :
  contains a LF = false ->
  split_go LF 0 cur (a ++ LF ++ b) = (cur ++ a) :: split_go LF 0 "" b.
Proof.
  revert cur. induction a as [|c a IH]; intros cur H.
  - simpl. now rewrite sapp_nil_r.
  - rewrite contains_LF_cons in H. apply orb_false_iff in H as [Hc Ha].
    change (String c a ++ LF ++ b) with (String c (a ++ LF ++ b)).
    unfold split_go at 1; fold split_go.
    assert (Hs : startswith (String c (a ++ LF ++ b)) LF = false).
    { unfold LF at 2. cbn [startswith]. now rewrite Hc. }
    rewrite Hs, (IH _ Ha), sapp_assoc. reflexivity.
Qed.

(** Lines without a line break, joined and split again, come back. *)
Lemma split_join_LF (lines : list string) :
  forall l cur,
    (forall x, In x (l :: lines) -> contains x LF = false) ->
    split_go LF 0 cur (join LF (l :: lines)) = (cur ++ l) :: lines.
Proof.
  induction lines as [|l2 ls IH]; intros l cur H.
  - simpl. apply split_go_clean, H. left. reflexivity.
  - change (join LF (l :: l2 :: ls)) with (l ++ LF ++ join LF (l2 :: ls)).
    rewrite split_go_LF_sep by (apply H; left; reflexivity).
    rewrite IH by (intros x Hx; apply H; right; exact Hx). reflexivity.
Qed.

Lemma format_hit_lines (r : SearchHit) :
  format_hit r = head_line r ++ LF ++ "  " ++ MARKER ++ get_or_empty (href r).
Proof. unfold format_hit, head_line. now rewrite !sapp_assoc. Qed.

Lemma join_format_hits (r : SearchHit) (hits : list SearchHit) :
  join LF (map format_hit (r :: hits))
  = join LF (flat_map (fun x => [head_line x; "  " ++ MARKER ++ get_or_empty (href x)])
               (r :: hits)).
Proof.
  revert r. induction hits as [|r2 hits IH]; intros r.
  - simpl. apply format_hit_lines.
  - change (join LF (map format_hit (r :: r2 :: hits)))
      with (format_hit r ++ LF ++ join LF (map format_hit (r2 :: hits))).
    rewrite IH, format_hit_lines. simpl. now rewrite !sapp_assoc.
Qed.

(** X9: the text that [_search_web] writes for hits whose lines are plain
    is read back by the citation scan of [chat] as exactly the URLs of the
    hits, in their order. *)
Theorem hits_round_trip :
  forall (q : string) (r : SearchHit) (hits : list SearchHit),
    (forall x, In x (r :: hits) -> plain_hit x) ->
    collect_sources [(q, render_search q (Returned (r :: hits)))]
    = map (fun x => get_or_empty (href x)) (r :: hits).
Proof.
  intros q r hits Hplain.
  rewrite collect_sources_flat. cbn [flat_map snd]. rewrite app_nil_r.
  change (render_search q (Returned (r :: hits)))
    with (join LF (map format_hit (r :: hits))).
  rewrite join_format_hits.
  assert (Hlines : forall x,
             In x (flat_map (fun x => [head_line x; "  " ++ MARKER ++ get_or_empty (href x)])
                     (r :: hits)) ->
             contains x LF = false).
  { intros x Hx. apply in_flat_map in Hx as (y & Hy & Hx).
    destruct (Hplain y Hy) as (H1 & _ & H3 & _).
    destruct Hx as [<-|[<-|[]]]; [exact H1|].
    rewrite !contains_LF_app, H3. reflexivity. }
  unfold split.
  remember (r :: hits) as all eqn:Hall. clear Hall.
  destruct all as [|r0 rest]; [reflexivity|].
  cbn [flat_map app] in *.
  rewrite split_join_LF by exact Hlines. clear Hlines.
  change ("" ++ head_line r0) with (head_line r0).
  revert r0 Hplain. induction rest as [|r1 rest IH]; intros r0 Hplain.
  - destruct (Hplain r0 (or_introl eq_refl)) as (_ & H2 & _ & H4 & H5 & H6).
    cbn [flat_map app map].
    rewrite (scan_line_clean [] _ H2), (scan_line_marker [] "  " _ H4), H5, H6.
    cbn [app]. destruct (get_or_empty (href r0)); [discriminate H6 | reflexivity].
  - destruct (Hplain r0 (or_introl eq_refl)) as (_ & H2 & _ & H4 & H5 & H6).
    cbn [flat_map app map] in *.
    rewrite (scan_line_clean [] _ H2), (scan_line_marker [] "  " _ H4), H5, H6.
    cbn [app].
    rewrite (IH r1) by (intros x Hx; apply Hplain; right; exact Hx).
    destruct (get_or_empty (href r0)); [discriminate H6 | reflexivity].
Qed.

Lemma hits_round_trip_witness :
  (forall x, In x [hit "T" "B" "https://example.org/a"; hit "U" "C" "http://example.org/b"]
             -> plain_hit x)
  /\ collect_sources
       [("q", render_search "q"
                (Returned [hit "T" "B" "https://example.org/a";
                           hit "U" "C" "http://example.org/b"]))]
     = ["https://example.org/a"; "http://example.org/b"].
Proof.
  assert (H : forall x,
             In x [hit "T" "B" "https://example.org/a"; hit "U" "C" "http://example.org/b"]
             -> plain_hit x).
  { intros x [<-|[<-|[]]]; repeat split. }
  split; [exact H|].
  exact (hits_round_trip "q" _ _ H).
Defined.

(** Without the condition on the first line the scan reads more: a title
    that ends in Source puts the marker on the first line. *)
Example hits_title_marker :
  collect_sources
    [("q", render_search "q"
             (Returned [hit "Open Source" "https is everywhere" "https://example.org/a"]))]
  = ["https is everywhere..."; "https://example.org/a"].
Proof. reflexivity. Qed.

(** ** Matching by derivatives *)

Lemma sapp_eq_nil (a b : string) : a ++ b = "" -> a = "" /\ b = "".
Proof. destruct a; simpl; intros H; [split; [reflexivity | exact H] | discriminate]. Qed.

Lemma in_regex_nil_nullable (r : regex) (s : string) :
  in_regex r s -> s = "" -> nullable r = true.
Proof.
  induction 1 as [|f c Hf|r s a b Ha IHa Hb IHb|r s a Ha IH|r s a Ha IH|r|r a b Ha IHa Hb IHb];
    intros E; simpl; auto.
  - discriminate.
  - apply sapp_eq_nil in E as [-> ->]. now rewrite IHa, IHb.
  - now rewrite IH.
  - rewrite IH by assumption. apply orb_true_r.
Qed.

Lemma nullable_in_regex (r : regex) : nullable r = true -> in_regex r "".
Proof.
  induction r as [| |f|r IHr s IHs|r IHr s IHs|r IH]; simpl; intros H;
    try discriminate.
  - constructor.
  - apply andb_true_iff in H as [Hr Hs].
    change "" with ("" ++ ""). constructor; auto.
  - apply orb_true_iff in H as [H|H]; [apply in_Or_l | apply in_Or_r]; auto.
  - constructor.
Qed.

Lemma deriv_sound (c : ascii) (r : regex) :
  forall s, in_regex (deriv c r) s -> in_regex r (String c s).
Proof.
  induction r as [| |f|r IHr s0 IHs|r IHr s0 IHs|r IH]; simpl; intros s H.
  - inversion H.
  - inversion H.
  - destruct (f c) eqn:Hf; inversion H; subst. now constructor.
  - destruct (nullable r) eqn:Hn.
    + inversion H as [| |? ? a b Ha Hb| ? ? ? Hl | ? ? ? Hr | |]; subst.
      * inversion Hl as [| |? ? a b Ha Hb| | | |]; subst.
        change (String c (a ++ b)) with (String c a ++ b). constructor; auto.
      * change (String c s) with ("" ++ String c s).
        constructor; [apply nullable_in_regex, Hn | auto].
    + inversion H as [| |? ? a b Ha Hb| | | |]; subst.
      change (String c (a ++ b)) with (String c a ++ b). constructor; auto.
  - inversion H; subst; [apply in_Or_l | apply in_Or_r]; auto.
  - inversion H as [| |? ? a b Ha Hb| | | |]; subst.
    change (String c (a ++ b)) with (String c a ++ b). constructor; auto.
Qed.

Lemma deriv_complete (r : regex) (t : string) :
  in_regex r t -> forall c s, t = String c s -> in_regex (deriv c r) s.
Proof.
  induction 1 as [|f c0 Hf|r s0 a b Ha IHa Hb IHb|r s0 a Ha IH|r s0 a Ha IH|r
                  |r a b Ha IHa Hb IHb];
    intros c s E; simpl.
  - discriminate.
  - inversion E; subst. rewrite Hf. constructor.
  - destruct a as [|c' a'].
    + simpl in E. rewrite (in_regex_nil_nullable _ _ Ha eq_refl).
      apply in_Or_r. now apply IHb.
    + simpl in E. inversion E; subst.
      assert (H1 : in_regex (Seq (deriv c r) s0) (a' ++ b)).
      { constructor; [now apply IHa | exact Hb]. }
      destruct (nullable r); [now apply in_Or_l | exact H1].
  - apply in_Or_l. now apply IH.
  - apply in_Or_r. now apply IH.
  - discriminate.
  - destruct a as [|c' a'].
    + simpl in E. now apply IHb.
    + simpl in E. inversion E; subst.
      constructor; [now apply IHa | exact Hb].
Qed.

(** The matcher decides membership. *)
Lemma fullmatch_spec (s : string) :
  forall r, fullmatch r s = true <-> in_regex r s.
Proof.
  induction s as [|c s IH]; intros r; simpl.
  - split; [apply nullable_in_regex | intros H; exact (in_regex_nil_nullable _ _ H eq_refl)].
  - rewrite IH. split; [apply deriv_sound | intros H; exact (deriv_complete _ _ H c s eq_refl)].
Qed.

Lemma chop_LF_app (t : string) : chop_LF (t ++ LF) = Some t.
Proof.
  induction t as [|x t IH]; [reflexivity|].
  change (String x t ++ LF) with (String x (t ++ LF)). cbn [chop_LF].
  rewrite IH. destruct (t ++ LF) eqn:E; [|reflexivity].
  apply sapp_eq_nil in E as [_ E]. discriminate.
Qed.

Lemma chop_LF_inv (s : string) : forall t, chop_LF s = Some t -> s = t ++ LF.
Proof.
  induction s as [|c s IH]; intros t H; [discriminate|].
  cbn [chop_LF] in H. destruct s as [|c2 s2].
  - destruct (Ascii.eqb_spec c (ascii_of_nat 10)) as [->|]; [|discriminate].
    inversion H. reflexivity.
  - destruct (chop_LF (String c2 s2)) as [u|]; [|discriminate].
    inversion H; subst. simpl. now rewrite <- (IH u eq_refl).
Qed.

(** ** The pattern of skill names *)

Lemma all_chars_app (f : ascii -> bool) (a b : string) :
  all_chars f (a ++ b) = all_chars f a && all_chars f b.
Proof.
  induction a as [|c a IH]; simpl; [reflexivity|]. now rewrite IH, andb_assoc.
Qed.

Lemma in_many_class (f : ascii -> bool) (s : string) :
  in_regex (Many (Class f)) s <-> all_chars f s = true.
Proof.
  split.
  - intros H. remember (Many (Class f)) as r eqn:Er.
    induction H as [| | | | | |r a b Ha _ Hb IHb]; inversion Er; subst; [reflexivity|].
    inversion Ha as [|? c Hc| | | | |]; subst. simpl. now rewrite (IHb eq_refl), Hc.
  - induction s as [|c s IH]; simpl; intros H; [constructor|].
    apply andb_true_iff in H as [Hc Hs].
    change (String c s) with (String c "" ++ s).
    constructor; [now constructor | auto].
Qed.

Lemma in_some1_class (f : ascii -> bool) (s : string) :
  in_regex (Some1 (Class f)) s <-> s <> "" /\ all_chars f s = true.
Proof.
  unfold Some1. split.
  - intros H. inversion H as [| |? ? a b Ha Hb| | | |]; subst.
    inversion Ha as [|? c Hc| | | | |]; subst. apply in_many_class in Hb. simpl.
    split; [discriminate | now rewrite Hc, Hb].
  - intros [Hne H]. destruct s as [|c s]; [contradiction|].
    simpl in H. apply andb_true_iff in H as [Hc Hs].
    change (String c s) with (String c "" ++ s).
    constructor; [now constructor | now apply in_many_class].
Qed.

Lemma in_hyphen_tail (b : string) :
  in_regex (Many (Seq (Class is_hyphen) (Some1 (Class lower_alnum)))) b
  <-> exists others, Forall is_run others /\ b = hyphen_tail others.
Proof.
  split.
  - intros H.
    remember (Many (Seq (Class is_hyphen) (Some1 (Class lower_alnum)))) as r eqn:Er.
    induction H as [| | | | | |r a b Ha _ Hb IHb]; inversion Er; subst.
    + exists []. split; [constructor | reflexivity].
    + destruct (IHb eq_refl) as (others & Ho & ->).
      inversion Ha as [| |? ? x y Hx Hy| | | |]; subst.
      inversion Hx as [|? c Hc| | | | |]; subst.
      apply in_some1_class in Hy.
      apply Ascii.eqb_eq in Hc. subst c.
      exists (y :: others). split; [constructor; assumption|].
      reflexivity.
  - intros (others & Ho & ->). induction Ho as [|o os Hrun _ IH]; [constructor|].
    change (hyphen_tail (o :: os)) with ("-" ++ (o ++ hyphen_tail os)).
    rewrite <- (sapp_assoc "-" o (hyphen_tail os)).
    constructor; [|exact IH].
    constructor; [now constructor | now apply in_some1_class].
Qed.

Lemma join_hyphen (others : list string) :
  forall first, join "-" (first :: others) = first ++ hyphen_tail others.
Proof.
  induction others as [|o os IH]; intros first.
  - simpl. now rewrite sapp_nil_r.
  - change (join "-" (first :: o :: os)) with (first ++ "-" ++ join "-" (o :: os)).
    now rewrite IH.
Qed.

(** The pattern describes the hyphenated names. *)
Lemma skill_name_pattern_spec (s : string) :
  fullmatch SKILL_NAME_PATTERN s = true <-> hyphenated s.
Proof.
  rewrite fullmatch_spec. unfold SKILL_NAME_PATTERN, hyphenated. split.
  - intros H. inversion H as [| |? ? a b Ha Hb| | | |]; subst.
    apply in_some1_class in Ha. apply in_hyphen_tail in Hb as (others & Ho & ->).
    exists a, others. now rewrite join_hyphen.
  - intros (first & others & Hf & Ho & ->). rewrite join_hyphen.
    constructor; [now apply in_some1_class|].
    apply in_hyphen_tail. now exists others.
Qed.

Lemma hyphenated_truthy (s : string) : hyphenated s -> truthy s = true.
Proof.
  intros (first & others & [Hne _] & _ & ->). rewrite join_hyphen.
  destruct first; [contradiction | reflexivity].
Qed.

Lemma re_match_skill_name (s : string) :
  re_match_anchored SKILL_NAME_PATTERN s = true
  <-> hyphenated s \/ exists t, s = t ++ LF /\ hyphenated t.
Proof.
  unfold re_match_anchored. rewrite orb_true_iff, skill_name_pattern_spec. split.
  - intros [H|H]; [now left|].
    destruct (chop_LF s) as [t|] eqn:E; [|discriminate].
    right. exists t. split; [now apply chop_LF_inv | now apply skill_name_pattern_spec].
  - intros [H|(t & -> & H)]; [now left|].
    right. rewrite chop_LF_app. now apply skill_name_pattern_spec.
Qed.

(** X10: [_validate_skill_name] accepts a name exactly when it equals the
    directory name, has at most 64 characters and is made of non-empty
    runs of lowercase letters and digits joined by single hyphens; since
    [$] also matches before a final line break, such a name followed by
    one line break is accepted as well. *)
Theorem validate_skill_name_accepts :
  forall name directory_name : string,
    _validate_skill_name name directory_name = (true, "")
    <-> name = directory_name
        /\ String.length name <= 64
        /\ (hyphenated name \/ exists t, name = t ++ LF /\ hyphenated t).
Proof.
  intros name dir. unfold _validate_skill_name. split.
  - destruct (truthy name); [|discriminate]. cbn [negb].
    destruct (Nat.ltb_spec 64 (String.length name)) as [|Hlen]; [discriminate|].
    destruct (re_match_anchored SKILL_NAME_PATTERN name) eqn:Hm; [|discriminate].
    cbn [negb].
    destruct (String.eqb_spec name dir) as [->|]; [|discriminate].
    intros _. split; [reflexivity|]. split; [exact Hlen|].
    now apply re_match_skill_name.
  - intros (-> & Hlen & Hm).
    assert (Ht : truthy dir = true).
    { destruct Hm as [H|(t & -> & H)]; [now apply hyphenated_truthy|].
      apply hyphenated_truthy in H. destruct t; [discriminate | reflexivity]. }
    rewrite Ht. cbn [negb].
    destruct (Nat.ltb_spec 64 (String.length dir)); [lia|].
    rewrite (proj2 (re_match_skill_name dir) Hm). cbn [negb].
    now rewrite String.eqb_refl.
Qed.

Lemma validate_skill_name_accepts_witness :
  _validate_skill_name "code-checker" "code-checker" = (true, "")
  /\ _validate_skill_name ("logic-auditor" ++ LF) ("logic-auditor" ++ LF) = (true, "")
  /\ (hyphenated "code-checker" \/ exists t, "code-checker" = t ++ LF /\ hyphenated t).
Proof.
  split; [reflexivity|]. split; [reflexivity|].
  exact (proj2 (proj2 (proj1 (validate_skill_name_accepts "code-checker" "code-checker")
                         eq_refl))).
Defined.

Lemma name_char_lower (c : ascii) : name_char c = true -> lower_char c = c.
Proof. destruct c as [[] [] [] [] [] [] [] []]; intros H; try discriminate H; reflexivity. Qed.

Lemma lower_alnum_name_char (c : ascii) : lower_alnum c = true -> name_char c = true.
Proof. intros H. unfold name_char. now rewrite H. Qed.

Lemma lower_alnum_not_hyphen (c : ascii) : lower_alnum c = true -> Ascii.eqb "-" c = false.
Proof. destruct c as [[] [] [] [] [] [] [] []]; intros H; try discriminate H; reflexivity. Qed.

Lemma all_chars_weaken (f g : ascii -> bool) (s : string) :
  (forall c, f c = true -> g c = true) -> all_chars f s = true -> all_chars g s = true.
Proof.
  intros Hfg. induction s as [|c s IH]; simpl; [reflexivity|]. intros H.
  apply andb_true_iff in H as [Hc Hs]. now rewrite (Hfg c Hc), (IH Hs).
Qed.

Lemma all_chars_lower (s : string) : all_chars name_char s = true -> lower s = s.
Proof.
  induction s as [|c s IH]; simpl; [reflexivity|]. intros H.
  apply andb_true_iff in H as [Hc Hs]. now rewrite (name_char_lower c Hc), (IH Hs).
Qed.

Lemma hyphen_tail_chars (others : list string) :
  Forall is_run others -> all_chars name_char (hyphen_tail others) = true.
Proof.
  induction 1 as [|o os [_ Ho] _ IH]; [reflexivity|].
  change (hyphen_tail (o :: os)) with (String "-" (o ++ hyphen_tail os)).
  cbn [all_chars]. rewrite all_chars_app, IH.
  now rewrite (all_chars_weaken _ _ _ lower_alnum_name_char Ho).
Qed.

Lemma hyphenated_chars (s : string) :
  hyphenated s -> all_chars name_char s = true /\ startswith s "-" = false.
Proof.
  intros (first & others & [Hne Hf] & Ho & ->). rewrite join_hyphen. split.
  - rewrite all_chars_app, (hyphen_tail_chars _ Ho).
    now rewrite (all_chars_weaken _ _ _ lower_alnum_name_char Hf).
  - destruct first as [|c first]; [contradiction|].
    simpl in Hf. apply andb_true_iff in Hf as [Hc _].
    cbn [append startswith]. now rewrite (lower_alnum_not_hyphen c Hc).
Qed.

(** X11: a name that [_validate_skill_name] accepts has between 1 and 64
    characters, each a lowercase letter, a digit, a hyphen or a line
    break; it is left unchanged by lowercasing and does not start with a
    hyphen. *)
Theorem validate_skill_name_alphabet :
  forall name directory_name : string,
    fst (_validate_skill_name name directory_name) = true ->
    1 <= String.length name <= 64
    /\ all_chars name_char name = true
    /\ lower name = name
    /\ startswith name "-" = false.
Proof.
  intros name dir H.
  assert (Hv : String.length name <= 64
               /\ re_match_anchored SKILL_NAME_PATTERN name = true).
  { revert H. unfold _validate_skill_name.
    destruct (negb (truthy name)); [discriminate|].
    destruct (Nat.ltb_spec 64 (String.length name)); [discriminate|].
    destruct (re_match_anchored SKILL_NAME_PATTERN name); [|discriminate].
    intros _. split; [assumption | reflexivity]. }
  destruct Hv as [Hlen Hm]. apply re_match_skill_name in Hm.
  assert (Hc : all_chars name_char name = true /\ startswith name "-" = false).
  { destruct Hm as [Hh|(t & -> & Hh)]; [now apply hyphenated_chars|].
    destruct (hyphenated_chars t Hh) as [H1 H2]. split.
    - rewrite all_chars_app, H1. reflexivity.
    - pose proof (hyphenated_truthy t Hh) as Ht.
      destruct t as [|c t]; [discriminate|]. exact H2. }
  destruct Hc as [H1 H2].
  split; [|split; [exact H1 | split; [now apply all_chars_lower | exact H2]]].
  split; [|exact Hlen].
  destruct name; [|simpl; lia]. discriminate H.
Qed.

Lemma validate_skill_name_alphabet_witness :
  fst (_validate_skill_name "general-reviewer" "general-reviewer") = true
  /\ lower "general-reviewer" = "general-reviewer"
  /\ 1 <= String.length "general-reviewer" <= 64.
Proof.
  destruct (validate_skill_name_alphabet "general-reviewer" "general-reviewer" eq_refl)
    as (Hl & _ & Hlow & _).
  split; [reflexivity|]. split; [exact Hlow | exact Hl].
Defined.

(** ** The event stream of the server *)

Lemma run_sse_gen {W R : Type} (h : handler W) (p : prog R) :
  forall w,
    run h (sse_gen p) w
    = ((map framed (trace_of h p w) ++ [Out done_frame])%list,
       result_of h p w, world_after h p w).
Proof.
  induction p as [r|s k IH|X e k IH]; intros w.
  - reflexivity.
  - cbn [sse_gen]. rewrite run_yield, trace_yield, result_yield, world_yield.
    unfold trace_of at 1, result_of at 1, world_after at 1.
    rewrite IH. reflexivity.
  - cbn [sse_gen]. rewrite run_call, trace_call, result_call, world_call.
    unfold trace_of at 1, result_of at 1, world_after at 1.
    rewrite IH. cbn [fst snd]. destruct e; reflexivity.
Qed.

Lemma outputs_framed (t : list obs) :
  outputs (map framed t) = map content_frame (outputs t).
Proof.
  induction t as [|o t IH]; [reflexivity|].
  destruct o; simpl; rewrite IH; reflexivity.
Qed.

Lemma count_framed (f : obs -> bool) (t : list obs) :
  (forall o, f (framed o) = f o) -> count f (map framed t) = count f t.
Proof.
  intros H. induction t as [|o t IH]; [reflexivity|].
  simpl map. now rewrite !count_cons, H, IH.
Qed.

(** X12: the chat endpoint sends one content frame for every fragment of
    the turn, in order, and then the closing frame; it makes the calls of
    the turn and no other, and leaves the agent as the turn leaves it. *)
Theorem api_chat_frames :
  forall (W : Type) (h : handler W) (w : W) (agent : DevilAgent) (message : string),
    trace_of h (api_chat agent message) w
    = (map framed (trace_of h (chat agent message) w) ++ [Out done_frame])%list
    /\ outputs (trace_of h (api_chat agent message) w)
       = (map content_frame (outputs (trace_of h (chat agent message) w))
          ++ [done_frame])%list
    /\ count is_stream_call (trace_of h (api_chat agent message) w) = 1
    /\ result_of h (api_chat agent message) w = result_of h (chat agent message) w.
Proof.
  intros W h w agent message. unfold api_chat.
  assert (Ht : trace_of h (sse_gen (chat agent message)) w
               = (map framed (trace_of h (chat agent message) w) ++ [Out done_frame])%list).
  { unfold trace_of at 1. now rewrite run_sse_gen. }
  split; [exact Ht|]. split; [|split].
  - rewrite Ht, outputs_app, outputs_framed. reflexivity.
  - rewrite Ht, count_app, count_framed by (intros []; reflexivity).
    destruct (chat_shape h agent message w)
      as (opening & ending & qs & w' & Hs & _ & _ & Hso & Hse & _).
    destruct (react_loop_count h max_iterations 0 message qs [] 0 w')
      as (_ & _ & _ & Hst & _). fold (range max_iterations) in Hst.
    rewrite Hs, !count_app, Hso, Hse, Hst. reflexivity.
  - unfold result_of at 1. now rewrite run_sse_gen.
Qed.

Lemma json_escape_printable (c : ascii) :
  all_chars is_printable (json_escape c) = true.
Proof. destruct c as [[] [] [] [] [] [] [] []]; reflexivity. Qed.

Lemma json_escape_all_printable (s : string) :
  all_chars is_printable (json_escape_all s) = true.
Proof.
  induction s as [|c s IH]; [reflexivity|].
  cbn [json_escape_all]. now rewrite all_chars_app, json_escape_printable, IH.
Qed.

Lemma printable_no_LF (s : string) :
  all_chars is_printable s = true -> contains s LF = false.
Proof.
  induction s as [|c s IH]; [reflexivity|]. cbn [all_chars]. intros H.
  apply andb_true_iff in H as [Hc Hs]. rewrite contains_LF_cons, (IH Hs).
  destruct c as [[] [] [] [] [] [] [] []]; try discriminate Hc; reflexivity.
Qed.

(** X13: a content frame is the text [data: ], one line of printable
    ASCII characters that holds no line break, and two line breaks,
    whatever the fragment holds; so a reader that cuts the stream at line
    breaks gets every frame whole. *)
Theorem content_frame_one_line :
  forall chunk : string,
    exists payload,
      content_frame chunk = "data: " ++ payload ++ LF ++ LF
      /\ payload = "{" ++ DQ ++ "content" ++ DQ ++ ": " ++ json_string chunk ++ "}"
      /\ all_chars is_printable payload = true
      /\ contains payload LF = false.
Proof.
  intros chunk. eexists. split; [reflexivity|]. split; [reflexivity|].
  assert (H : all_chars is_printable
                ("{" ++ DQ ++ "content" ++ DQ ++ ": " ++ json_string chunk ++ "}") = true).
  { unfold json_string.
    rewrite !all_chars_app, json_escape_all_printable. reflexivity. }
  split; [exact H | apply printable_no_LF, H].
Qed.

Lemma json_unescape_escape (c : ascii) (rest : string) :
  json_unescape (json_escape c ++ rest) = String c (json_unescape rest).
Proof. destruct c as [[] [] [] [] [] [] [] []]; reflexivity. Qed.

Lemma json_unescape_all (s rest : string) :
  json_unescape (json_escape_all s ++ rest) = s ++ json_unescape rest.
Proof.
  induction s as [|c s IH]; [reflexivity|].
  cbn [json_escape_all]. rewrite sapp_assoc, json_unescape_escape, IH. reflexivity.
Qed.

Lemma sapp_inv_head (a x y : string) : a ++ x = a ++ y -> x = y.
Proof. induction a as [|c a IH]; simpl; intros H; [exact H|]. inversion H. auto. Qed.

Lemma sapp_inv_tail (u : string) : forall a b, a ++ u = b ++ u -> a = b.
Proof.
  intros a. induction a as [|c a IH]; intros b H.
  - destruct b as [|d b]; [reflexivity|].
    apply (f_equal String.length) in H. simpl in H. rewrite slength_app in H. lia.
  - destruct b as [|d b].
    + apply (f_equal String.length) in H. simpl in H. rewrite slength_app in H. lia.
    + simpl in H. inversion H. f_equal. auto.
Qed.

(** X14: for fragments made of code points below 256, the range of the
    model's characters, what [json.dumps] writes determines the text: two
    such fragments with the same JSON string, or the same content frame,
    are equal.  (Beyond that range this fails: a character above U+FFFF
    and its pair of surrogates are written alike.) *)
Theorem content_frame_injective :
  forall a b : string,
    (json_string a = json_string b -> a = b)
    /\ (content_frame a = content_frame b -> a = b).
Proof.
  assert (Hj : forall a b, json_string a = json_string b -> a = b).
  { intros a b H. unfold json_string in H. apply sapp_inv_head in H.
    apply (f_equal json_unescape) in H. rewrite !json_unescape_all in H.
    now apply sapp_inv_tail in H. }
  intros a b. split; [apply Hj|].
  intros H. unfold content_frame in H.
  apply sapp_inv_head in H. rewrite !sapp_assoc in H.
  do 5 apply sapp_inv_head in H.
  rewrite <- !sapp_assoc in H. do 3 apply sapp_inv_tail in H.
  apply Hj. exact H.
Qed.

Lemma content_frame_injective_witness :
  json_string ("a" ++ LF) = json_string ("a" ++ LF)
  /\ "a" ++ LF = "a" ++ LF
  /\ json_string ("a" ++ LF) = DQ ++ "a\n" ++ DQ.
Proof.
  split; [reflexivity|]. split.
  - exact (proj1 (content_frame_injective ("a" ++ LF) ("a" ++ LF)) eq_refl).
  - reflexivity.
Defined.

(** ** The command line *)

Lemma chat_one_stream_call {W : Type} (h : handler W) (agent : DevilAgent)
    (u : string) (w : W) :
  count is_stream_call (trace_of h (chat agent u) w) = 1.
Proof.
  destruct (chat_shape h agent u w)
    as (opening & ending & qs & w' & Hs & _ & _ & Hso & Hse & _).
  destruct (react_loop_count h max_iterations 0 u qs [] 0 w')
    as (_ & _ & _ & Hst & _). fold (range max_iterations) in Hst.
  rewrite Hs, !count_app, Hso, Hse, Hst. reflexivity.
Qed.

(** At the end of the input the loop writes its prompt and ends. *)
Lemma run_cli_loop_nil {W : Type} (h : handler W) (agent : DevilAgent) (w : W) :
  run h (cli_loop [] agent) w = ([Out "You: "], agent, w).
Proof. reflexivity. Qed.

(** One pass of the loop, by the kind of the line. *)
Lemma run_cli_loop_cons {W : Type} (h : handler W) (line : string) (rest : list string)
    (agent : DevilAgent) (w : W) :
  run h (cli_loop (line :: rest) agent) w
  = if negb (truthy (strip line))
    then (Out "You: " :: trace_of h (cli_loop rest agent) w,
          result_of h (cli_loop rest agent) w, world_after h (cli_loop rest agent) w)
    else if String.eqb (strip line) "/quit" then ([Out "You: "], agent, w)
    else if String.eqb (strip line) "/devil" then
      let a := set_mode (negb (devil_mode agent)) agent in
      (Out "You: "
       :: Out ("-> " ++ (if devil_mode a then "Devil" else "Normal") ++ LF ++ LF)
       :: trace_of h (cli_loop rest a) w,
       result_of h (cli_loop rest a) w, world_after h (cli_loop rest a) w)
    else if String.eqb (strip line) "/search" then
      let a := set_search (negb (use_web_search agent)) agent in
      (Out "You: "
       :: Out ("-> Web search: " ++ (if use_web_search a then "ON" else "OFF") ++ LF ++ LF)
       :: trace_of h (cli_loop rest a) w,
       result_of h (cli_loop rest a) w, world_after h (cli_loop rest a) w)
    else if String.eqb (strip line) "/clear" then
      (Out "You: " :: Out ("-> Cleared" ++ LF ++ LF)
       :: trace_of h (cli_loop rest (clear agent)) w,
       result_of h (cli_loop rest (clear agent)) w,
       world_after h (cli_loop rest (clear agent)) w)
    else
      let a := result_of h (chat agent (strip line)) w in
      let w1 := world_after h (chat agent (strip line)) w in
      ((Out "You: " :: Out "AI: "
        :: trace_of h (chat agent (strip line)) w
        ++ Out (LF ++ LF) :: trace_of h (cli_loop rest a) w1)%list,
       result_of h (cli_loop rest a) w1, world_after h (cli_loop rest a) w1).
Proof.
  cbn [cli_loop]. rewrite run_yield.
  destruct (negb (truthy (strip line))); [reflexivity|].
  destruct (String.eqb (strip line) "/quit"); [reflexivity|].
  destruct (String.eqb (strip line) "/devil").
  { cbv zeta. now rewrite trace_yield, result_yield, world_yield. }
  destruct (String.eqb (strip line) "/search").
  { cbv zeta. now rewrite trace_yield, result_yield, world_yield. }
  destruct (String.eqb (strip line) "/clear").
  { now rewrite trace_yield, result_yield, world_yield. }
  cbv zeta. autorewrite with run_eqs. reflexivity.
Qed.

(** X15: the loop reads nothing after a line that says [/quit]: the lines
    that follow it change neither what is printed, nor the calls made,
    nor the agent. *)
Theorem cli_quit_ends :
  forall (W : Type) (h : handler W) (before : list string) (line : string)
         (after : list string) (agent : DevilAgent) (w : W),
    strip line = "/quit" ->
    run h (cli_loop (before ++ line :: after) agent) w
    = run h (cli_loop (before ++ [line]) agent) w.
Proof.
  intros W h before line after agent w Hq. revert agent w.
  induction before as [|l before IH]; intros agent w.
  - cbn [app]. rewrite !run_cli_loop_cons, Hq. reflexivity.
  - cbn [app]. rewrite !run_cli_loop_cons. unfold trace_of, result_of, world_after.
    cbv zeta. rewrite !IH. reflexivity.
Qed.

Lemma cli_quit_ends_witness :
  strip " /quit " = "/quit"
  /\ run (play world_partial) (cli_loop ["/devil"; " /quit "; "hello"; "/clear"] agent0) (0, 0)
     = run (play world_partial) (cli_loop ["/devil"; " /quit "] agent0) (0, 0).
Proof.
  split; [reflexivity|].
  exact (cli_quit_ends _ (play world_partial) ["/devil"] " /quit " ["hello"; "/clear"]
           agent0 (0, 0) eq_refl).
Defined.

(** X16: blank lines and commands never reach the language model or the
    search engine: when every line is blank or a command, the loop makes
    no call at all. *)
Theorem cli_commands_make_no_call :
  forall (W : Type) (h : handler W) (inputs : list string) (agent : DevilAgent) (w : W),
    (forall line, In line inputs -> is_command (strip line) = true) ->
    forallb is_output (trace_of h (cli_main agent inputs) w) = true
    /\ world_after h (cli_main agent inputs) w = w.
Proof.
  intros W h inputs agent w H. unfold cli_main. rewrite trace_yield, world_yield.
  cbn [forallb is_output andb]. revert agent w.
  induction inputs as [|l inputs IH]; intros agent w; [split; reflexivity|].
  assert (Hl : is_command (strip l) = true) by (apply H; left; reflexivity).
  assert (Hr : forall line, In line inputs -> is_command (strip line) = true)
    by (intros x Hx; apply H; right; exact Hx).
  specialize (IH Hr).
  unfold trace_of, world_after. rewrite run_cli_loop_cons.
  unfold is_command in Hl.
  destruct (negb (truthy (strip l))); [exact (IH agent w)|].
  destruct (String.eqb (strip l) "/quit"); [split; reflexivity|].
  destruct (String.eqb (strip l) "/devil"); [exact (IH _ w)|].
  destruct (String.eqb (strip l) "/search"); [exact (IH _ w)|].
  destruct (String.eqb (strip l) "/clear"); [exact (IH _ w)|].
  discriminate Hl.
Qed.

Lemma cli_commands_make_no_call_witness :
  (forall line, In line ["/devil"; "  "; "/search"; "/clear"] ->
                is_command (strip line) = true)
  /\ forallb is_output
       (trace_of (play world_partial) (cli_main agent0 ["/devil"; "  "; "/search"; "/clear"])
          (0, 0)) = true.
Proof.
  assert (H : forall line, In line ["/devil"; "  "; "/search"; "/clear"] ->
                           is_command (strip line) = true).
  { intros line [<-|[<-|[<-|[<-|[]]]]]; reflexivity. }
  split; [exact H|].
  exact (proj1 (cli_commands_make_no_call _ (play world_partial) _ agent0 (0, 0) H)).
Defined.

(** X17: when no line says [/quit], the loop makes exactly one stream call
    for every line that is neither blank nor a command. *)
Theorem cli_one_turn_per_message :
  forall (W : Type) (h : handler W) (inputs : list string) (agent : DevilAgent) (w : W),
    (forall line, In line inputs -> strip line <> "/quit") ->
    count is_stream_call (trace_of h (cli_main agent inputs) w)
    = length (filter (fun line => negb (is_command (strip line))) inputs).
Proof.
  intros W h inputs agent w H. unfold cli_main. rewrite trace_yield, count_cons.
  cbn [is_stream_call plus]. revert agent w.
  induction inputs as [|l inputs IH]; intros agent w; [reflexivity|].
  assert (Hl : String.eqb (strip l) "/quit" = false).
  { apply String.eqb_neq, H. left. reflexivity. }
  assert (Hr : forall line, In line inputs -> strip line <> "/quit")
    by (intros x Hx; apply H; right; exact Hx).
  specialize (IH Hr).
  unfold trace_of. rewrite run_cli_loop_cons. cbn [filter]. unfold is_command.
  rewrite Hl.
  destruct (negb (truthy (strip l))).
  { cbn [fst orb negb]. rewrite count_cons. exact (IH agent w). }
  destruct (String.eqb (strip l) "/devil").
  { cbn [fst orb negb]. rewrite !count_cons. exact (IH _ w). }
  destruct (String.eqb (strip l) "/search").
  { cbn [fst orb negb]. rewrite !count_cons. exact (IH _ w). }
  destruct (String.eqb (strip l) "/clear").
  { cbn [fst orb negb]. rewrite !count_cons. exact (IH _ w). }
  cbn [fst orb negb length]. cbv zeta.
  rewrite !count_cons, count_app, count_cons, chat_one_stream_call.
  cbn [is_stream_call plus]. f_equal. apply IH.
Qed.

Lemma cli_one_turn_per_message_witness :
  (forall line, In line ["hello"; "/devil"; ""; "def f(): pass"] -> strip line <> "/quit")
  /\ count is_stream_call
       (trace_of (play world_partial)
          (cli_main agent0 ["hello"; "/devil"; ""; "def f(): pass"]) (0, 0)) = 2.
Proof.
  assert (H : forall line, In line ["hello"; "/devil"; ""; "def f(): pass"] ->
                           strip line <> "/quit").
  { intros line [<-|[<-|[<-|[<-|[]]]]]; discriminate. }
  split; [exact H|].
  exact (cli_one_turn_per_message _ (play world_partial) _ agent0 (0, 0) H).
Defined.

(** ** What the prompts hold *)

Lemma contains_inside (a b x y : string) :
  contains a b = true -> contains (x ++ a ++ y) b = true.
Proof.
  intros H. destruct (contains_inv _ _ H) as (p & q & ->).
  replace (x ++ (p ++ b ++ q) ++ y) with ((x ++ p) ++ b ++ (q ++ y))
    by (now rewrite !sapp_assoc).
  apply contains_app.
Qed.

Lemma contains_prefix (a b y : string) :
  contains a b = true -> contains (a ++ y) b = true.
Proof. intros H. exact (contains_inside a b "" y H). Qed.

Lemma contains_suffix (a b x : string) :
  contains a b = true -> contains (x ++ a) b = true.
Proof.
  intros H. rewrite <- (sapp_nil_r a). exact (contains_inside a b x "" H).
Qed.

Lemma contains_refl (a : string) : contains a a = true.
Proof.
  rewrite <- (sapp_nil_r a) at 1. exact (contains_app "" a "").
Qed.

Lemma join_contains (sep e : string) (l : list string) :
  In e l -> contains (join sep l) e = true.
Proof.
  induction l as [|x l IH]; intros H; [destruct H|].
  destruct l as [|y l].
  - destruct H as [<-|[]]. apply contains_refl.
  - change (join sep (x :: y :: l)) with (x ++ sep ++ join sep (y :: l)).
    destruct H as [<-|H].
    + apply contains_prefix, contains_refl.
    + apply contains_suffix, contains_suffix, IH, H.
Qed.

(** X18: in devil mode the system prompt names every skill of the
    registry, with its description and its path, and holds the whole
    content of the skill that is active once the prompt is built. *)
Theorem devil_prompt_holds_skills :
  forall (self : DevilAgent) (u : string),
    devil_mode self = true ->
    (forall s, In s (skills_metadata self) ->
               contains (fst (_build_prompt self u)) (name s) = true
               /\ contains (fst (_build_prompt self u)) (description s) = true
               /\ contains (fst (_build_prompt self u)) (path s) = true)
    /\ (forall a, active_skill (snd (_build_prompt self u)) = Some a ->
                  contains (fst (_build_prompt self u)) (content a) = true).
Proof.
  intros self u Hd.
  destruct (build_prompt_frame self u) as (_ & _ & _ & Hk).
  unfold _build_prompt in *. rewrite Hd in *. cbn [negb fst snd] in *.
  set (self' := match active_skill self with
                | Some _ => self
                | None => if truthy u
                          then with_active_skill (_load_skill_by_name self (_detect_skill u)) self
                          else self
                end) in *.
  split.
  - intros s Hs. unfold DEVIL_PROMPT_format, _format_skills_list. rewrite Hk.
    destruct (skills_metadata self) as [|s0 l] eqn:E; [destruct Hs|].
    rewrite <- E in *.
    assert (Hline : forall part,
               contains ("- **" ++ name s ++ "**: " ++ description s ++ LF
                         ++ "  " ++ ARROW ++ " Read " ++ path s ++ " for full instructions")
                        part = true ->
               contains
                 (join LF
                    (map (fun s => "- **" ++ name s ++ "**: " ++ description s ++ LF
                                   ++ "  " ++ ARROW ++ " Read " ++ path s
                                   ++ " for full instructions")
                         (skills_metadata self))) part = true).
    { intros part Hp.
      pose proof (join_contains LF _ _ (in_map
        (fun s => "- **" ++ name s ++ "**: " ++ description s ++ LF
                  ++ "  " ++ ARROW ++ " Read " ++ path s ++ " for full instructions")
        _ s Hs)) as Hj.
      destruct (contains_inv _ _ Hj) as (p & q & ->).
      now apply contains_inside. }
    repeat split; do 5 apply contains_suffix; apply contains_prefix, Hline.
    + apply (contains_app "- **").
    + do 3 apply contains_suffix. apply contains_prefix, contains_refl.
    + do 8 apply contains_suffix. apply contains_prefix, contains_refl.
  - intros a Ha. rewrite Ha. unfold DEVIL_PROMPT_format.
    do 7 apply contains_suffix. apply contains_prefix, contains_refl.
Qed.

Lemma devil_prompt_holds_skills_witness :
  devil_mode agent_skilled = true
  /\ In skill_code (skills_metadata agent_skilled)
  /\ active_skill (snd (_build_prompt agent_skilled "def f(): pass")) = Some skill_code
  /\ contains (fst (_build_prompt agent_skilled "def f(): pass")) "code-checker" = true
  /\ contains (fst (_build_prompt agent_skilled "def f(): pass"))
       "Check the code for defects." = true.
Proof.
  destruct (devil_prompt_holds_skills agent_skilled "def f(): pass" eq_refl) as [H1 H2].
  split; [reflexivity|]. split; [left; reflexivity|]. split; [reflexivity|]. split.
  - exact (proj1 (H1 skill_code (or_introl eq_refl))).
  - exact (H2 skill_code eq_refl).
Defined.

(** With web search on, the search context of a turn is empty when
    nothing was accumulated and is built from the accumulated map
    otherwise. *)
Lemma chat_search_context {W : Type} (h : handler W) (self : DevilAgent)
    (u : string) (w : W) :
  use_web_search self = true ->
  exists today,
    fst (result_of h (chat_search self u) w)
    = match fst (result_of h (chat_retrieve u) w) with
      | [] => ""
      | d => build_search_context today d
      end.
Proof.
  intros Hs. unfold chat_search. rewrite Hs, result_bind.
  destruct (fst (result_of h (chat_retrieve u) w)) as [|qr d].
  - exists "". reflexivity.
  - eexists. unfold call, yield. autorewrite with run_eqs. reflexivity.
Qed.

(** X19: with web search on, every entry of the map that the retrieval
    loop accumulated reaches the language model in full: the system
    message of the stream call holds the query in brackets followed, on
    the next line, by the whole result text. *)
Theorem chat_context_holds_results :
  forall (W : Type) (h : handler W) (w : W) (self : DevilAgent) (u q r : string),
    use_web_search self = true ->
    In (q, r) (fst (result_of h (chat_retrieve u) w)) ->
    exists before p answer after,
      trace_of h (chat self u) w
      = (before ++ Streamed [SystemMessage p; HumanMessage u] answer :: after)%list
      /\ count is_stream_call before = 0
      /\ contains p ("[" ++ q ++ "]" ++ LF ++ r) = true.
Proof.
  intros W h w self u q r Hs Hin.
  destruct (run_chat h self u w) as [Ht _]. cbv zeta in Ht.
  set (self0 := with_history [] self) in *.
  assert (Hs0 : use_web_search self0 = true) by exact Hs.
  destruct (chat_search_context h self0 u w Hs0) as [today Hctx].
  eexists _, _, _, _. split; [|split].
  - rewrite Ht. unfold stream_messages. rewrite stream_agent_history. reflexivity.
  - apply chat_search_no_stream.
  - apply contains_suffix. rewrite Hctx.
    destruct (fst (result_of h (chat_retrieve u) w)) as [|qr d] eqn:E; [destruct Hin|].
    unfold build_search_context.
    do 8 apply contains_suffix. apply contains_prefix.
    apply join_contains.
    exact (in_map (fun qr => "[" ++ fst qr ++ "]" ++ LF ++ snd qr) _ (q, r) Hin).
Qed.

Lemma chat_context_holds_results_witness :
  use_web_search agent0 = true
  /\ In ("b", "[Search failed: rate limit]")
       (fst (result_of (play world_partial) (chat_retrieve "x") (0, 0)))
  /\ exists before p answer after,
       trace_of (play world_partial) (chat agent0 "x") (0, 0)
       = (before ++ Streamed [SystemMessage p; HumanMessage "x"] answer :: after)%list
       /\ count is_stream_call before = 0
       /\ contains p ("[" ++ "b" ++ "]" ++ LF ++ "[Search failed: rate limit]") = true.
Proof.
  assert (Hin : In ("b", "[Search failed: rate limit]")
                  (fst (result_of (play world_partial) (chat_retrieve "x") (0, 0)))).
  { right. left. reflexivity. }
  split; [reflexivity|]. split; [exact Hin|].
  exact (chat_context_holds_results _ (play world_partial) (0, 0) agent0 "x" _ _
           eq_refl Hin).
Defined.

Lemma load_skill_by_name_first_witness :
  _load_skill_by_name agent_skilled "code-checker" = Some skill_code
  /\ (exists before after,
        skills_metadata agent_skilled = (before ++ skill_code :: after)%list
        /\ name skill_code = "code-checker"
        /\ forall x, In x before -> name x <> "code-checker")
  /\ _load_skill_by_name agent_skilled "logic-auditor" = None.
Proof.
  split; [reflexivity|]. split; [|reflexivity].
  exact (proj1 (load_skill_by_name_first agent_skilled "code-checker") skill_code eq_refl).
Defined.


Example partial_world_stream_call :
  exists answer rest,
    trace_of (play world_partial) (chat agent0 "x") (0, 0)
    = (trace_of (play world_partial) (chat_search (with_history [] agent0) "x") (0, 0)
       ++ Streamed
            [SystemMessage
               (fst (_build_prompt agent0 "x")
                ++ build_search_context "2024-06-01" results_partial);
             HumanMessage "x"] answer
       :: rest)%list.
Proof. eexists _, _. reflexivity. Qed.
